(** * Keyword-overlap matching core of [app.py]

    A shallow embedding of the text pipeline of [app.py]:
    [extract_text] and its three helpers, [tokenize_and_weight] and
    [score_resume_against_job], together with the Python primitives they
    call ([str.lower], [re.sub], [str.split], [Counter], [dict],
    [Counter.most_common], integer true division, text-mode [open]).

    Conventions.
    - A Python [str] is a list of Unicode code points ([N]).
    - A Python [dict] / [Counter] is an association list with pairwise
      distinct keys, kept in insertion order (the order Python iterates in).
    - Python integers are [Z].
    - A float produced by [int / int] is represented by the exact rational
      it rounds, in lowest terms ([Qred]); CPython's true division of
      integers is correctly rounded, so comparisons of such a float with
      [0.0], [0.5] and [1.0] agree with those of the rational.  Arithmetic
      on a score is not represented: statements about sums and products
      are made on the integers of the loop.
    - Code that can raise returns a [result].
    - [print] calls are not modelled. *)

From Stdlib Require Import List ZArith NArith QArith Qreduction Lia Bool.
From Stdlib Require Import String Ascii Permutation Sorted.
From Stdlib.Strings Require Import Byte.
Import ListNotations.

Local Open Scope Z_scope.

(** ** Python values *)

Definition char := N.
Definition str := list char.
Definition dict := list (str * Z).

(** A string literal of the source, as code points. *)
Definition lit (s : string) : str :=
  List.map N_of_ascii (list_ascii_of_string s).

Inductive exn : Type :=
| IndexError
| ZeroDivisionError
| OSError
| LibraryError (code : N).

Inductive result (A : Type) : Type :=
| Ok (a : A)
| Raise (e : exn).

Arguments Ok {A} a.
Arguments Raise {A} e.

Fixpoint str_eqb (a b : str) : bool :=
  match a, b with
  | [], [] => true
  | x :: a', y :: b' => N.eqb x y && str_eqb a' b'
  | _, _ => false
  end.

(** ** Unicode tables

    [str.lower], the regular expression class [\s] and [str.split] consult
    CPython's Unicode database.  Their behaviour on ASCII is written out;
    for code points from 128 on it is left to two tables:
    [lower_ucs4 s i c] is the lowercase expansion of the non-ASCII code point
    [c] found at index [i] of [s] (one to three code points; the position
    matters for the final sigma), and [uni_isspace] is the whitespace
    predicate on non-ASCII code points. *)

Definition in_range (lo hi c : N) : bool := (N.leb lo c && N.leb c hi)%bool.

Definition is_ascii (c : char) : bool := N.ltb c 128.

Definition ascii_tolower (c : char) : char :=
  if in_range 65 90 c then (c + 32)%N else c.

(** ASCII whitespace of [Py_UNICODE_ISSPACE]: TAB..CR, FS..US and SPACE. *)
Definition ascii_isspace (c : char) : bool :=
  (in_range 9 13 c || in_range 28 32 c)%bool.

Definition SPACE : char := 32%N.

Section Unicode.

Variable lower_ucs4 : str -> nat -> char -> list char.
Variable uni_isspace : char -> bool.

Definition lower_at (s : str) (i : nat) (c : char) : list char :=
  if is_ascii c then [ascii_tolower c] else lower_ucs4 s i c.

Fixpoint lower_from (s : str) (i : nat) (rest : str) : str :=
  match rest with
  | [] => []
  | c :: rest' => lower_at s i c ++ lower_from s (S i) rest'
  end.

(** [s.lower()] *)
Definition lower (s : str) : str := lower_from s 0%nat s.

Definition isspace (c : char) : bool :=
  if is_ascii c then ascii_isspace c else uni_isspace c.

(** The complement of the class [[^a-z0-9\s\-+#]]. *)
Definition keep (c : char) : bool :=
  (in_range 97 122 c || in_range 48 57 c || isspace c
   || N.eqb c 45 || N.eqb c 43 || N.eqb c 35)%bool.

(** [re.sub(r"[^a-z0-9\s\-+#]", " ", text)] *)
Definition re_sub (text : str) : str :=
  List.map (fun c => if keep c then c else SPACE) text.

(** [text.split()]: the maximal runs of non-whitespace characters.
    [cur] holds the characters of the run being read, last one first. *)
Definition flush (cur : str) (out : list str) : list str :=
  match cur with
  | [] => out
  | _ :: _ => rev cur :: out
  end.

Fixpoint split_from (cur : str) (text : str) : list str :=
  match text with
  | [] => flush cur []
  | c :: text' =>
      if isspace c then flush cur (split_from [] text')
      else split_from (c :: cur) text'
  end.

Definition split (text : str) : list str := split_from [] text.

End Unicode.

(** ** Dictionaries and counters *)

Definition keys (d : dict) : list str := List.map fst d.
Definition values (d : dict) : list Z := List.map snd d.

Fixpoint dict_get (d : dict) (k : str) : option Z :=
  match d with
  | [] => None
  | (k', v) :: d' => if str_eqb k' k then Some v else dict_get d' k
  end.

(** [d.get(k, default)] *)
Definition get (d : dict) (k : str) (default : Z) : Z :=
  match dict_get d k with
  | Some v => v
  | None => default
  end.

(** [d[k] = v]: an existing key keeps its place, a new key goes last. *)
Fixpoint dict_set (d : dict) (k : str) (v : Z) : dict :=
  match d with
  | [] => [(k, v)]
  | (k', v') :: d' =>
      if str_eqb k' k then (k', v) :: d' else (k', v') :: dict_set d' k v
  end.

(** [dict(pairs)] *)
Definition dict_of_items (items : list (str * Z)) : dict :=
  fold_left (fun d kv => dict_set d (fst kv) (snd kv)) items [].

(** [Counter(tokens)]: for each element, [c[elem] = c.get(elem, 0) + 1]. *)
Definition Counter (tokens : list str) : dict :=
  fold_left (fun d t => dict_set d t (get d t 0 + 1)) tokens [].

(** [sum(xs)] *)
Definition sum (xs : list Z) : Z := fold_left Z.add xs 0.

(** [sorted(items, key=itemgetter(1), reverse=True)]: a stable sort by
    decreasing count, written as an insertion sort from the right; an
    element goes in front of the first element whose count is not larger. *)
Fixpoint insert_desc (e : str * Z) (l : list (str * Z)) : list (str * Z) :=
  match l with
  | [] => [e]
  | x :: l' => if snd e <? snd x then x :: insert_desc e l' else e :: l
  end.

Definition sorted_desc (l : list (str * Z)) : list (str * Z) :=
  fold_right insert_desc [] l.

(** [cnt.most_common(n)]: with [n] absent the whole sorted list; otherwise
    [heapq.nlargest(n, items, key)], the first [n] elements of the same
    sorted list, none when [n <= 0]. *)
Definition most_common (cnt : dict) (n : option Z) : list (str * Z) :=
  match n with
  | None => sorted_desc cnt
  | Some n => firstn (Z.to_nat n) (sorted_desc cnt)
  end.

(** Truth value of an optional integer argument: [None] and [0] are false. *)
Definition truthy (n : option Z) : bool :=
  match n with
  | None => false
  | Some n => negb (n =? 0)
  end.

(** [a / b] on integers. *)
Definition truediv (a b : Z) : result Q :=
  if b =? 0 then Raise ZeroDivisionError
  else Ok (Qred (inject_Z a / inject_Z b)).

(** [x or y] on integers. *)
Definition int_or (x y : Z) : Z := if x =? 0 then y else x.

(** ** The scorer *)

Section Scorer.

Variable lower_ucs4 : str -> nat -> char -> list char.
Variable uni_isspace : char -> bool.
(** The process-wide stopword set. *)
Variable STOPWORDS : list str.

Definition is_stopword (t : str) : bool := existsb (str_eqb t) STOPWORDS.

(** The condition of the list comprehension:
    [t and t not in STOPWORDS and len(t) > 1]. *)
Definition keep_token (t : str) : bool :=
  (negb (str_eqb t []) && negb (is_stopword t) && (1 <? List.length t)%nat)%bool.

Definition tokens_of (text : str) : list str :=
  let text := lower lower_ucs4 text in
  let text := re_sub uni_isspace text in
  List.filter keep_token (split uni_isspace text).

Definition tokenize_and_weight (text : str) (top_n : option Z) : dict :=
  let cnt := Counter (tokens_of text) in
  if truthy top_n then dict_of_items (most_common cnt top_n)
  else cnt.

(** One iteration of the loop over [j_tokens.items()]; the state is
    [(overlap, matched)]. *)
Definition score_step (r_tokens : dict) (st : Z * dict) (item : str * Z)
  : Z * dict :=
  let '(overlap, matched) := st in
  let '(tok, jcount) := item in
  let rcount := get r_tokens tok 0 in
  if 0 <? rcount then
    let contribution := Z.min rcount jcount in
    (overlap + contribution, dict_set matched tok contribution)
  else st.

Definition score_loop (r_tokens j_tokens : dict) : Z * dict :=
  fold_left (score_step r_tokens) j_tokens (0, []).

Definition score_resume_against_job (resume_text job_desc : str)
  : result (Q * dict) :=
  let r_tokens := tokenize_and_weight resume_text None in
  let j_tokens := tokenize_and_weight job_desc None in
  match j_tokens with
  | [] => Ok (0%Q, [])
  | _ :: _ =>
      let '(overlap, matched) := score_loop r_tokens j_tokens in
      let total_job := int_or (sum (values j_tokens)) 1 in
      match truediv overlap total_job with
      | Ok score => Ok (score, matched)
      | Raise e => Raise e
      end
  end.

End Scorer.

(** ** The extractor *)

(** [filename.rsplit(".", 1)[1]]: what follows the last dot; without a dot
    the list has one element and the index is out of range. *)
Fixpoint after_last_dot (s : str) : option str :=
  match s with
  | [] => None
  | c :: s' =>
      match after_last_dot s' with
      | Some e => Some e
      | None => if N.eqb c 46 then Some s' else None
      end
  end.

(** [sep.join(parts)] *)
Fixpoint join (sep : str) (parts : list str) : str :=
  match parts with
  | [] => []
  | p :: ps =>
      match ps with
      | [] => p
      | _ :: _ => p ++ sep ++ join sep ps
      end
  end.

(** UTF-8 decoding with [errors="ignore"]: a well-formed sequence gives its
    code point; any other byte is dropped and decoding resumes at the next
    byte. *)
Definition is_cont (b : N) : bool := in_range 128 191 b.

Definition second_of_3 (b0 b1 : N) : bool :=
  if N.eqb b0 224 then in_range 160 191 b1
  else if N.eqb b0 237 then in_range 128 159 b1
  else is_cont b1.

Definition second_of_4 (b0 b1 : N) : bool :=
  if N.eqb b0 240 then in_range 144 191 b1
  else if N.eqb b0 244 then in_range 128 143 b1
  else is_cont b1.

Fixpoint utf8_ignore (bs : list N) : str :=
  match bs with
  | [] => []
  | b0 :: r0 =>
      if N.ltb b0 128 then b0 :: utf8_ignore r0
      else
        match r0 with
        | [] => []
        | b1 :: r1 =>
            if (in_range 194 223 b0 && is_cont b1)%bool
            then ((b0 - 192) * 64 + (b1 - 128))%N :: utf8_ignore r1
            else
              match r1 with
              | [] => utf8_ignore r0
              | b2 :: r2 =>
                  if (in_range 224 239 b0 && second_of_3 b0 b1
                      && is_cont b2)%bool
                  then ((b0 - 224) * 4096 + (b1 - 128) * 64
                        + (b2 - 128))%N :: utf8_ignore r2
                  else
                    match r2 with
                    | [] => utf8_ignore r0
                    | b3 :: r3 =>
                        if (in_range 240 244 b0 && second_of_4 b0 b1
                            && is_cont b2 && is_cont b3)%bool
                        then ((b0 - 240) * 262144 + (b1 - 128) * 4096
                              + (b2 - 128) * 64 + (b3 - 128))%N
                             :: utf8_ignore r3
                        else utf8_ignore r0
                    end
              end
        end
  end.

(** Newline translation of a file opened in text mode with the default
    [newline=None]: CR LF and a lone CR are read as LF. *)
Fixpoint universal_newlines (s : str) : str :=
  match s with
  | [] => []
  | c :: s' =>
      if N.eqb c 13 then
        10%N :: match s' with
                | [] => []
                | c' :: s'' =>
                    if N.eqb c' 10 then universal_newlines s''
                    else universal_newlines s'
                end
      else c :: universal_newlines s'
  end.

Section Extractor.

Variable lower_ucs4 : str -> nat -> char -> list char.
(** The bytes of the file stored at a path, if there is one. *)
Variable fs : str -> option (list byte).
(** [pdfminer.high_level.extract_text]. *)
Variable extract_text_pdf : str -> result (option str).
(** [docx.Document(path)], as the texts of its paragraphs in order. *)
Variable docx_Document : str -> result (list str).

Definition extract_text_from_docx (path : str) : result str :=
  match docx_Document path with
  | Raise e => Raise e
  | Ok paragraphs =>
      let full_text := fold_left (fun acc para => acc ++ [para]) paragraphs [] in
      Ok (join (lit (String "010" EmptyString)) full_text)
  end.

Definition extract_text_from_pdf (path : str) : result str :=
  match extract_text_pdf path with
  | Ok (Some text) => Ok text
  | Ok None => Ok []
  | Raise _ => Ok []
  end.

Definition extract_text_from_txt (path : str) : result str :=
  match fs path with
  | None => Raise OSError
  | Some content =>
      Ok (universal_newlines (utf8_ignore (List.map Byte.to_N content)))
  end.

Definition extract_text (path filename : str) : result str :=
  match after_last_dot filename with
  | None => Raise IndexError
  | Some e =>
      let ext := lower lower_ucs4 e in
      if str_eqb ext (lit "pdf") then extract_text_from_pdf path
      else if (str_eqb ext (lit "docx") || str_eqb ext (lit "doc"))%bool then
        if str_eqb ext (lit "doc") then extract_text_from_txt path
        else extract_text_from_docx path
      else if str_eqb ext (lit "txt") then extract_text_from_txt path
      else Ok []
  end.

End Extractor.

(** ** Auxiliary definitions used in the statements *)

(** The characters a token can be made of: [a-z], [0-9], [-], [+], [#]. *)
Definition allowed (c : char) : bool :=
  (in_range 97 122 c || in_range 48 57 c
   || N.eqb c 45 || N.eqb c 43 || N.eqb c 35)%bool.

(** The entries the scoring loop records, in iteration order. *)
Definition contributions (r_tokens j_tokens : dict) : dict :=
  flat_map
    (fun item =>
       if 0 <? get r_tokens (fst item) 0
       then [(fst item, Z.min (get r_tokens (fst item) 0) (snd item))]
       else [])
    j_tokens.

(** Order of [most_common]: the count does not increase. *)
Definition count_ge (a b : str * Z) : Prop := snd b <= snd a.

(** The entries of a list of items that carry the count [c], in order. *)
Definition with_count (c : Z) (l : list (str * Z)) : list (str * Z) :=
  List.filter (fun e => snd e =? c) l.

(** Tables for texts whose non-ASCII code points are neither letters with
    a lowercase form nor whitespace. *)
Definition plain_lower_ucs4 : str -> nat -> char -> list char :=
  fun _ _ c => [c].
Definition plain_isspace : char -> bool := fun _ => false.

(** The two texts of the worked example. *)
Definition example_resume : str :=
  lit "Experienced Python engineer, 5 years Python.".
Definition example_job : str :=
  lit "Python developer needed. Python experience required.".

(** An upload whose bytes are "hi" followed by the byte FF, which is
    neither UTF-8 nor a docx package, with a docx parser that raises on it
    and a PDF parser that finds no text. *)
Definition broken_docx_fs : str -> option (list byte) :=
  fun _ => Some [x68; x69; xff].
Definition empty_pdf : str -> result (option str) := fun _ => Ok None.
Definition failing_docx : str -> result (list str) :=
  fun _ => Raise (LibraryError 0).

(** ** The upload filter and the matching route *)

Definition ALLOWED_EXTENSIONS : list str :=
  [lit "pdf"; lit "docx"; lit "doc"; lit "txt"].

(** [c in s] for a one-character string [c]. *)
Definition contains (c : char) (s : str) : bool := existsb (N.eqb c) s.

Definition DOT : char := 46%N.

Section Upload.

Variable lower_ucs4 : str -> nat -> char -> list char.

(** ["." in filename and filename.rsplit(".", 1)[1].lower() in
    ALLOWED_EXTENSIONS]; the right operand is evaluated only when the left
    one is true. *)
Definition allowed_file (filename : str) : result bool :=
  if contains DOT filename then
    match after_last_dot filename with
    | None => Raise IndexError
    | Some e =>
        Ok (existsb (str_eqb (lower lower_ucs4 e)) ALLOWED_EXTENSIONS)
    end
  else Ok false.

End Upload.

(** Rows of the tables [resume] and [job]. *)
Record Resume : Type := mkResume {
  resume_id : Z;
  resume_filename : str;
  resume_original_name : str;
  resume_text : str;
  resume_candidate_name : option str
}.

Record Job : Type := mkJob {
  job_id : Z;
  job_employer_id : Z;
  job_title : str;
  job_description : str
}.

(** An element of [scored]: the dictionary with the keys ["job"],
    ["score"] and ["matched"]. *)
Record Scored : Type := mkScored {
  scored_job : Job;
  scored_score : Q;
  scored_matched : dict
}.

(** What the body of a route computes: the value it passes to the
    template, the 404 of [get_or_404], or an exception of the scorer that
    nothing caught.  Failures of the database calls and the rendering of
    the template are outside this model. *)
Inductive response (A : Type) : Type :=
| Rendered (a : A)
| NotFound
| Uncaught (e : exn).

Arguments Rendered {A} a.
Arguments NotFound {A}.
Arguments Uncaught {A} e.

(** [a < b] on scores.  The floats are compared through the rationals
    they round: rounding is monotone, and two different scores whose job
    profiles total fewer than 2^26 occurrences each differ by at least
    2^-52, so they round to different floats. *)
Definition Qltb (a b : Q) : bool := negb (Qle_bool b a).

(** [sorted(scored, key=lambda x: x["score"], reverse=True)]: stable, by
    decreasing score. *)
Fixpoint insert_by_score (e : Scored) (l : list Scored) : list Scored :=
  match l with
  | [] => [e]
  | x :: l' =>
      if Qltb (scored_score e) (scored_score x)
      then x :: insert_by_score e l'
      else e :: l
  end.

Definition sorted_by_score (l : list Scored) : list Scored :=
  fold_right insert_by_score [] l.

Section Matching.

Variable lower_ucs4 : str -> nat -> char -> list char.
Variable uni_isspace : char -> bool.
Variable STOPWORDS : list str.

(** The text a job is scored on: [job.description + " " + job.title]. *)
Definition job_text (job : Job) : str :=
  job_description job ++ lit " " ++ job_title job.

(** The loop of [match_resume] over the jobs. *)
Fixpoint score_jobs (text : str) (jobs : list Job) : result (list Scored) :=
  match jobs with
  | [] => Ok []
  | job :: jobs' =>
      match score_resume_against_job lower_ucs4 uni_isspace STOPWORDS
              text (job_text job) with
      | Raise e => Raise e
      | Ok (score, matched) =>
          match score_jobs text jobs' with
          | Raise e => Raise e
          | Ok scored => Ok (mkScored job score matched :: scored)
          end
      end
  end.

(** [match_resume(resume_id)] over the rows of the two tables; the result
    is the list [top] passed to the template. *)
Definition match_resume (resumes : list Resume) (jobs : list Job)
           (id : Z) : response (list Scored) :=
  match List.find (fun r => resume_id r =? id) resumes with
  | None => NotFound
  | Some resume =>
      match score_jobs (resume_text resume) jobs with
      | Raise e => Uncaught e
      | Ok scored => Rendered (firstn 10 (sorted_by_score scored))
      end
  end.

End Matching.

(** ** Further definitions used in the statements *)

(** How often [t] occurs in a list of tokens. *)
Definition occurrences (t : str) (l : list str) : Z :=
  Z.of_nat (List.length (List.filter (str_eqb t) l)).

(** Unicode scalar values: code points below 110000 (hex) that are not
    surrogates. *)
Definition scalar (c : N) : bool :=
  (N.ltb c 55296 || (N.ltb 57343 c && N.ltb c 1114112))%bool.

(** The UTF-8 encoding of a scalar value. *)
Definition utf8_encode (c : N) : list N :=
  if N.ltb c 128 then [c]
  else if N.ltb c 2048 then [192 + c / 64; 128 + c mod 64]%N
  else if N.ltb c 65536 then
    [224 + c / 4096; 128 + (c / 64) mod 64; 128 + c mod 64]%N
  else
    [240 + c / 262144; 128 + (c / 4096) mod 64; 128 + (c / 64) mod 64;
     128 + c mod 64]%N.

(** Order of the matching route: the score does not increase. *)
Definition score_ge (a b : Scored) : Prop :=
  (scored_score b <= scored_score a)%Q.

(** The rows that carry the score [q], in order. *)
Definition with_score (q : Q) (l : list Scored) : list Scored :=
  List.filter (fun e => Qeq_bool (scored_score e) q) l.

Definition CR : char := 13%N.

(** A file store whose files all hold the two ASCII bytes of "hi", and
    the rows used in the instances of the matching route. *)
Definition ascii_fs : str -> option (list byte) := fun _ => Some [x68; x69].

Definition example_resumes : list Resume :=
  [mkResume 1 (lit "0a_cv.txt") (lit "cv.txt") example_resume None].

Definition example_jobs : list Job :=
  [mkJob 1 1 (lit "Cook") (lit "Kitchen work");
   mkJob 2 1 (lit "Python developer") (lit "Python and SQL")].

(** * Properties *)

(** ** Strings and dictionaries *)

Lemma str_eqb_eq (a b : str) : str_eqb a b = true <-> a = b.
Proof.
  revert b; induction a as [|x a IH]; intros [|y b]; simpl;
    try (split; [discriminate | congruence]); try tauto.
  rewrite andb_true_iff, N.eqb_eq, IH.
  split; [intros [-> ->]; reflexivity | intros H; inversion H; auto].
Qed.

Lemma str_eqb_refl (a : str) : str_eqb a a = true.
Proof. apply str_eqb_eq; reflexivity. Qed.

Lemma str_eqb_neq (a b : str) : str_eqb a b = false <-> a <> b.
Proof.
  rewrite <- str_eqb_eq. destruct (str_eqb a b); split; congruence.
Qed.

Ltac case_str a b :=
  let E := fresh "E" in
  destruct (str_eqb a b) eqn:E;
  [apply str_eqb_eq in E; try subst | apply str_eqb_neq in E].

Lemma dict_get_None (d : dict) (k : str) :
  dict_get d k = None <-> ~ In k (keys d).
Proof.
  induction d as [|[k' v'] d IH]; simpl; [tauto|].
  case_str k' k; [split; [discriminate | tauto]|].
  rewrite IH; tauto.
Qed.

Lemma dict_get_In (d : dict) (k : str) (v : Z) :
  dict_get d k = Some v -> In (k, v) d.
Proof.
  induction d as [|[k' v'] d IH]; simpl; [discriminate|].
  case_str k' k; [intros [= ->]; auto | auto].
Qed.

Lemma In_dict_get (d : dict) (k : str) (v : Z) :
  NoDup (keys d) -> In (k, v) d -> dict_get d k = Some v.
Proof.
  induction d as [|[k' v'] d IH]; simpl; [tauto|].
  intros ND [[= -> ->]|Hin].
  - now rewrite str_eqb_refl.
  - inversion ND as [|? ? Hk ND']; subst.
    case_str k' k; [|auto].
    exfalso; apply Hk. change k with (fst (k, v)). now apply in_map.
Qed.

Lemma dict_set_fresh (d : dict) (k : str) (v : Z) :
  ~ In k (keys d) -> dict_set d k v = d ++ [(k, v)].
Proof.
  induction d as [|[k' v'] d IH]; simpl; [reflexivity|].
  intros H. case_str k' k; [tauto|]. rewrite IH; tauto.
Qed.

Lemma dict_set_In (d : dict) (k : str) (v : Z) (k0 : str) (v0 : Z) :
  In (k0, v0) (dict_set d k v) -> (k0 = k /\ v0 = v) \/ In (k0, v0) d.
Proof.
  induction d as [|[k' v'] d IH]; simpl.
  - intros [[= <- <-]|[]]; auto.
  - case_str k' k; simpl.
    + intros [[= <- <-]|H]; auto.
    + intros [H|H]; [auto|]. destruct (IH H); auto.
Qed.

Lemma keys_dict_set (d : dict) (k : str) (v : Z) :
  keys (dict_set d k v) =
  match dict_get d k with Some _ => keys d | None => keys d ++ [k] end.
Proof.
  induction d as [|[k' v'] d IH]; simpl; [reflexivity|].
  case_str k' k; simpl; [reflexivity|].
  rewrite IH. now destruct (dict_get d k).
Qed.

Lemma NoDup_snoc {A : Type} (l : list A) (x : A) :
  NoDup l -> ~ In x l -> NoDup (l ++ [x]).
Proof.
  intros ND Hx. induction ND as [|y l Hy ND IH]; simpl.
  - constructor; [tauto | constructor].
  - constructor.
    + rewrite in_app_iff; simpl. intros [H|[H|[]]]; [tauto|].
      subst; apply Hx; now left.
    + apply IH. intros H; apply Hx; now right.
Qed.

Lemma NoDup_keys_dict_set (d : dict) (k : str) (v : Z) :
  NoDup (keys d) -> NoDup (keys (dict_set d k v)).
Proof.
  intros ND. rewrite keys_dict_set.
  destruct (dict_get d k) eqn:G; [assumption|].
  apply NoDup_snoc; [assumption | now apply dict_get_None].
Qed.

Lemma sum_from (xs : list Z) (a : Z) : fold_left Z.add xs a = a + sum xs.
Proof.
  unfold sum. revert a; induction xs as [|x xs IH]; intros a; simpl; [lia|].
  rewrite IH, (IH x). lia.
Qed.

Lemma sum_cons (x : Z) (xs : list Z) : sum (x :: xs) = x + sum xs.
Proof. unfold sum at 1; simpl. now rewrite sum_from. Qed.

Lemma sum_app (xs ys : list Z) : sum (xs ++ ys) = sum xs + sum ys.
Proof.
  induction xs as [|x xs IH]; simpl; [reflexivity|].
  rewrite !sum_cons, IH. lia.
Qed.

(** ** Counters *)

Lemma Counter_fold_inv (P : str -> Prop) (tokens : list str) :
  forall d : dict,
    NoDup (keys d) ->
    (forall k v, In (k, v) d -> P k /\ 1 <= v) ->
    Forall P tokens ->
    let d' := fold_left (fun d t => dict_set d t (get d t 0 + 1)) tokens d in
    NoDup (keys d') /\ (forall k v, In (k, v) d' -> P k /\ 1 <= v).
Proof.
  induction tokens as [|t tokens IH]; intros d ND Hd Ht; simpl; [auto|].
  inversion Ht as [|? ? Pt Ht']; subst.
  apply IH; [now apply NoDup_keys_dict_set | | assumption].
  intros k v Hin. apply dict_set_In in Hin as [[-> ->]|Hin]; [|auto].
  split; [assumption|]. unfold get.
  destruct (dict_get d t) eqn:G; [|lia].
  apply dict_get_In, Hd in G. lia.
Qed.

Lemma Counter_NoDup (tokens : list str) : NoDup (keys (Counter tokens)).
Proof.
  apply (Counter_fold_inv (fun _ => True) tokens []); simpl;
    [constructor | tauto | now apply Forall_forall].
Qed.

Lemma Counter_In (tokens : list str) (k : str) (v : Z) :
  In (k, v) (Counter tokens) -> In k tokens /\ 1 <= v.
Proof.
  apply (Counter_fold_inv (fun k => In k tokens) tokens []); simpl;
    [constructor | tauto | now apply Forall_forall].
Qed.

Lemma Counter_nil_iff (tokens : list str) :
  Counter tokens = [] <-> tokens = [].
Proof.
  split; [|intros ->; reflexivity].
  destruct tokens as [|t tokens]; [reflexivity|].
  unfold Counter; simpl. intros H. exfalso.
  assert (G : forall (l : list str) (d : dict), d <> [] ->
            fold_left (fun d t => dict_set d t (get d t 0 + 1)) l d <> []).
  { induction l as [|x l IH]; intros d Hd; simpl; [assumption|].
    apply IH. destruct d as [|[k' v'] d]; [congruence|]. simpl.
    destruct (str_eqb k' x); discriminate. }
  revert H. apply G. discriminate.
Qed.

(** ** The scoring loop in closed form *)

Section Loop.

Variable r_tokens : dict.

Local Abbreviation contributions := (contributions r_tokens).

Lemma keys_contributions (j : dict) :
  keys (contributions j) =
  List.filter (fun k => 0 <? get r_tokens k 0) (keys j).
Proof.
  induction j as [|[k v] j IH]; simpl; [reflexivity|].
  destruct (0 <? get r_tokens k 0); simpl; now rewrite <- IH.
Qed.

Lemma score_loop_from (l : dict) :
  forall (o : Z) (m : dict),
    NoDup (keys m ++ keys l) ->
    fold_left (score_step r_tokens) l (o, m) =
    (o + sum (values (contributions l)), m ++ contributions l).
Proof.
  induction l as [|[tok jc] l IH]; intros o m ND; simpl.
  - unfold sum; simpl. now rewrite Z.add_0_r, app_nil_r.
  - destruct (0 <? get r_tokens tok 0) eqn:Hr; simpl.
    + rewrite dict_set_fresh.
      2:{ apply NoDup_remove_2 in ND. rewrite in_app_iff in ND. tauto. }
      rewrite IH.
      * rewrite sum_cons, <- app_assoc. simpl. f_equal. lia.
      * unfold keys in *. rewrite map_app, <- app_assoc. exact ND.
    + apply IH. now apply NoDup_remove_1 in ND.
Qed.

Lemma score_loop_closed (j : dict) :
  NoDup (keys j) ->
  score_loop r_tokens j = (sum (values (contributions j)), contributions j).
Proof.
  intros ND. unfold score_loop. now rewrite score_loop_from.
Qed.

Lemma NoDup_keys_contributions (j : dict) :
  NoDup (keys j) -> NoDup (keys (contributions j)).
Proof. rewrite keys_contributions. apply NoDup_filter. Qed.

Lemma dict_get_contributions (j : dict) (tok : str) :
  NoDup (keys j) ->
  dict_get (contributions j) tok =
  match dict_get j tok with
  | Some jcount =>
      if 0 <? get r_tokens tok 0
      then Some (Z.min (get r_tokens tok 0) jcount) else None
  | None => None
  end.
Proof.
  induction j as [|[k v] j IH]; intros ND; simpl; [reflexivity|].
  inversion ND as [|? ? Hk ND']; subst.
  case_str k tok.
  - assert (N : dict_get (contributions j) tok = None).
    { apply dict_get_None. rewrite keys_contributions, filter_In. tauto. }
    destruct (0 <? get r_tokens tok 0); simpl;
      [now rewrite str_eqb_refl | exact N].
  - rewrite <- (IH ND').
    destruct (0 <? get r_tokens k 0); simpl; [|reflexivity].
    destruct (str_eqb k tok) eqn:E'; [apply str_eqb_eq in E'; tauto|].
    reflexivity.
Qed.

Lemma sum_contributions_bounds (j : dict) :
  (forall k v, In (k, v) j -> 1 <= v) ->
  0 <= sum (values (contributions j)) <= sum (values j).
Proof.
  induction j as [|[k v] j IH]; intros Hv; simpl.
  - unfold sum; simpl; lia.
  - assert (1 <= v) by (apply (Hv k); now left).
    assert (0 <= sum (values (contributions j)) <= sum (values j))
      by (apply IH; intros k' v' ?; apply (Hv k'); now right).
    rewrite sum_cons.
    destruct (0 <? get r_tokens k 0) eqn:Hr; simpl;
      [rewrite sum_cons|]; lia.
Qed.

Lemma sum_contributions_pos (j : dict) :
  (forall k v, In (k, v) j -> 1 <= v) ->
  contributions j <> [] -> 1 <= sum (values (contributions j)).
Proof.
  induction j as [|[k v] j IH]; intros Hv; simpl; [congruence|].
  assert (1 <= v) by (apply (Hv k); now left).
  assert (Hj : forall k' v', In (k', v') j -> 1 <= v')
    by (intros k' v' ?; apply (Hv k'); now right).
  pose proof (sum_contributions_bounds j Hj).
  destruct (0 <? get r_tokens k 0) eqn:Hr; simpl.
  - intros _. rewrite sum_cons. apply Z.ltb_lt in Hr. lia.
  - now apply IH.
Qed.

Lemma contributions_full (j : dict) :
  (forall k v, In (k, v) j -> 1 <= v <= get r_tokens k 0) ->
  contributions j = j.
Proof.
  induction j as [|[k v] j IH]; intros Hv; simpl; [reflexivity|].
  assert (1 <= v <= get r_tokens k 0) by (apply Hv; now left).
  replace (0 <? get r_tokens k 0) with true by (symmetry; apply Z.ltb_lt; lia).
  simpl. rewrite Z.min_r by lia. f_equal.
  apply IH. intros k' v' ?. apply Hv. now right.
Qed.

End Loop.

(** ** True division *)

Lemma truediv_pos (a b : Z) :
  1 <= b -> truediv a b = Ok (Qred (a # Z.to_pos b)).
Proof.
  intros Hb. unfold truediv.
  destruct (b =? 0) eqn:E; [apply Z.eqb_eq in E; lia|].
  f_equal. apply Qred_complete.
  destruct b as [|p|p]; try lia. simpl.
  unfold Qdiv, Qinv, Qmult, inject_Z, Qeq; simpl. lia.
Qed.

Lemma Qred_frac_le_1 (a : Z) (p : positive) :
  a <= Zpos p -> (Qred (a # p) <= 1)%Q.
Proof.
  intros H. rewrite Qred_correct. unfold Qle; simpl. lia.
Qed.

Lemma Qred_frac_ge_0 (a : Z) (p : positive) :
  0 <= a -> (0 <= Qred (a # p))%Q.
Proof.
  intros H. rewrite Qred_correct. unfold Qle; simpl. lia.
Qed.

Lemma Qred_frac_zero (a : Z) (p : positive) :
  (Qred (a # p) == 0)%Q <-> a = 0.
Proof.
  rewrite Qred_correct. unfold Qeq; simpl. lia.
Qed.

Lemma Qred_frac_one (p : positive) : Qred (Zpos p # p) = 1%Q.
Proof.
  change 1%Q with (Qred 1). apply Qred_complete. unfold Qeq; simpl. lia.
Qed.

Lemma sum_values_pos (d : dict) :
  (forall k v, In (k, v) d -> 1 <= v) -> d <> [] -> 1 <= sum (values d).
Proof.
  destruct d as [|[k v] d]; [congruence|]. intros Hv _. simpl.
  rewrite sum_cons.
  assert (1 <= v) by (apply (Hv k); now left).
  assert (G : forall l : dict, (forall k v, In (k, v) l -> 1 <= v) ->
                               0 <= sum (values l)).
  { induction l as [|[k' v'] l IH]; intros Hl; simpl; [unfold sum; simpl; lia|].
    rewrite sum_cons. assert (1 <= v') by (apply (Hl k'); now left).
    assert (0 <= sum (values l)) by (apply IH; intros ? ? ?; eapply Hl; right; eauto).
    lia. }
  assert (0 <= sum (values d)) by (apply G; intros ? ? ?; eapply Hv; right; eauto).
  lia.
Qed.

Lemma get_pos_iff (d : dict) (k : str) :
  (forall k v, In (k, v) d -> 1 <= v) ->
  0 < get d k 0 <-> In k (keys d).
Proof.
  intros Hv. unfold get. destruct (dict_get d k) eqn:G.
  - split; intros _.
    + apply dict_get_In in G. change k with (fst (k, z)). now apply in_map.
    + apply dict_get_In, Hv in G. lia.
  - apply dict_get_None in G. split; [lia | tauto].
Qed.

Lemma contributions_nonempty (r j : dict) :
  contributions r j <> [] <->
  exists k, In k (keys j) /\ 0 < get r k 0.
Proof.
  split.
  - destruct (contributions r j) as [|e l] eqn:E; [congruence|]. intros _.
    assert (H : In (fst e) (keys (contributions r j)))
      by (rewrite E; now left).
    rewrite keys_contributions, filter_In, Z.ltb_lt in H. eauto.
  - intros (k & Hk & Hr) E.
    assert (H : In k (keys (contributions r j)))
      by (rewrite keys_contributions, filter_In, Z.ltb_lt; auto).
    now rewrite E in H.
Qed.

(** ** Properties of the scorer *)

Section ScorerProperties.

Variable lower_ucs4 : str -> nat -> char -> list char.
Variable uni_isspace : char -> bool.
Variable STOPWORDS : list str.

Local Abbreviation tokens := (tokens_of lower_ucs4 uni_isspace STOPWORDS).
Local Abbreviation tokenize := (tokenize_and_weight lower_ucs4 uni_isspace STOPWORDS).
Local Abbreviation score := (score_resume_against_job lower_ucs4 uni_isspace STOPWORDS).

Lemma profile_Counter (text : str) :
  tokenize text None = Counter (tokens text).
Proof. reflexivity. Qed.

Lemma profile_NoDup (text : str) : NoDup (keys (tokenize text None)).
Proof. apply Counter_NoDup. Qed.

Lemma profile_values (text : str) (k : str) (v : Z) :
  In (k, v) (tokenize text None) -> 1 <= v.
Proof. intros H. now apply Counter_In in H. Qed.

Lemma score_empty_job (resume_text job_desc : str) :
  tokenize job_desc None = [] -> score resume_text job_desc = Ok (0%Q, []).
Proof.
  intros E. unfold score_resume_against_job. now rewrite E.
Qed.

Lemma score_nonempty_job (resume_text job_desc : str) :
  let r_tokens := tokenize resume_text None in
  let j_tokens := tokenize job_desc None in
  j_tokens <> [] ->
  1 <= sum (values j_tokens) /\
  score resume_text job_desc =
  Ok (Qred (sum (values (contributions r_tokens j_tokens))
            # Z.to_pos (sum (values j_tokens))),
      contributions r_tokens j_tokens).
Proof.
  intros r_tokens j_tokens Hne.
  assert (Hs : 1 <= sum (values j_tokens))
    by (apply sum_values_pos; [apply profile_values | assumption]).
  split; [assumption|].
  unfold score_resume_against_job.
  fold r_tokens; fold j_tokens.
  destruct j_tokens as [|e l] eqn:E; [congruence|].
  rewrite <- E. rewrite score_loop_closed.
  2:{ subst j_tokens; rewrite E; rewrite <- E; apply profile_NoDup. }
  rewrite <- E in Hs.
  unfold int_or. replace (sum (values j_tokens) =? 0) with false
    by (symmetry; apply Z.eqb_neq; lia).
  now rewrite truediv_pos.
Qed.

(** C1. When the job profile is not empty the scorer returns a pair
    [(score, matched)]: [matched] is a mapping whose entries are exactly
    the job-profile tokens with a positive resume count, each with the
    minimum of the two counts; the loop's [overlap] is the sum of the
    values of [matched]; the job counts sum to at least 1; and [score] is
    [overlap] divided by that sum. *)
Theorem score_matched_overlap_total (resume_text job_desc : str) :
  let r_tokens := tokenize resume_text None in
  let j_tokens := tokenize job_desc None in
  j_tokens <> [] ->
  exists (s : Q) (matched : dict),
    score resume_text job_desc = Ok (s, matched) /\
    NoDup (keys matched) /\
    (forall tok,
        dict_get matched tok =
        match dict_get j_tokens tok with
        | Some jcount =>
            if 0 <? get r_tokens tok 0
            then Some (Z.min (get r_tokens tok 0) jcount) else None
        | None => None
        end) /\
    fst (score_loop r_tokens j_tokens) = sum (values matched) /\
    1 <= sum (values j_tokens) /\
    (s == inject_Z (sum (values matched))
          / inject_Z (sum (values j_tokens)))%Q.
Proof.
  intros r_tokens j_tokens Hne.
  destruct (score_nonempty_job resume_text job_desc Hne) as [Hs Hr].
  fold r_tokens in Hr; fold j_tokens in Hr, Hs.
  assert (ND : NoDup (keys j_tokens)) by apply profile_NoDup.
  eexists; eexists; split; [exact Hr|].
  split; [now apply NoDup_keys_contributions|].
  split; [intros tok; now apply dict_get_contributions|].
  split; [now rewrite score_loop_closed|].
  split; [assumption|].
  rewrite Qred_correct.
  destruct (sum (values j_tokens)) as [|p|p]; try lia.
  unfold Qdiv, Qinv, Qmult, inject_Z, Qeq; simpl. lia.
Qed.

(** C2. The score lies between 0 and 1, whatever the two texts. *)
Theorem score_between_0_and_1 (resume_text job_desc : str) :
  exists (s : Q) (matched : dict),
    score resume_text job_desc = Ok (s, matched) /\
    (0 <= s)%Q /\ (s <= 1)%Q.
Proof.
  destruct (tokenize job_desc None) as [|e l] eqn:E.
  - exists 0%Q, []. split; [now apply score_empty_job|].
    split; unfold Qle; simpl; lia.
  - assert (Hne : tokenize job_desc None <> []) by (rewrite E; discriminate).
    destruct (score_nonempty_job resume_text job_desc Hne) as [Hs Hr].
    eexists; eexists; split; [exact Hr|].
    pose proof (sum_contributions_bounds (tokenize resume_text None)
                  (tokenize job_desc None) (profile_values job_desc)) as B.
    split; [apply Qred_frac_ge_0; lia|].
    apply Qred_frac_le_1. rewrite Z2Pos.id; lia.
Qed.

(** C3. A job text that leaves no token after filtering, the empty text
    among them, scores [(0.0, {})] against every resume text. *)
Theorem score_job_without_tokens (resume_text job_desc : str) :
  tokens job_desc = [] ->
  score resume_text job_desc = Ok (0%Q, []) /\
  score resume_text [] = Ok (0%Q, []).
Proof.
  intros E. split; apply score_empty_job; rewrite profile_Counter.
  - now rewrite E.
  - reflexivity.
Qed.

(** C7. If the job profile is not empty and every one of its tokens has
    at least the same count in the resume profile, the score is 1. *)
Theorem score_full_coverage (resume_text job_desc : str) :
  let r_tokens := tokenize resume_text None in
  let j_tokens := tokenize job_desc None in
  j_tokens <> [] ->
  (forall tok jcount,
      In (tok, jcount) j_tokens ->
      exists rcount, In (tok, rcount) r_tokens /\ jcount <= rcount) ->
  exists matched : dict,
    score resume_text job_desc = Ok (1%Q, matched).
Proof.
  intros r_tokens j_tokens Hne Hcov.
  destruct (score_nonempty_job resume_text job_desc Hne) as [Hs Hr].
  fold r_tokens in Hr; fold j_tokens in Hr, Hs.
  rewrite (contributions_full r_tokens j_tokens) in Hr.
  - exists j_tokens. rewrite Hr. do 2 f_equal.
    destruct (sum (values j_tokens)) as [|p|p] eqn:E; try lia.
    simpl. apply Qred_frac_one.
  - intros k v Hin. split; [now apply (profile_values job_desc k)|].
    destruct (Hcov k v Hin) as (rc & Hrc & Hle).
    unfold get. rewrite (In_dict_get r_tokens k rc); [assumption| |assumption].
    apply profile_NoDup.
Qed.

(** C10. The score is 0 exactly when nothing was matched, and positive
    exactly when some job-profile token also occurs in the resume
    profile. *)
Theorem score_zero_iff_no_match (resume_text job_desc : str) :
  exists (s : Q) (matched : dict),
    score resume_text job_desc = Ok (s, matched) /\
    ((s == 0)%Q <-> matched = []) /\
    ((0 < s)%Q <->
     exists tok, In tok (keys (tokenize job_desc None)) /\
                 In tok (keys (tokenize resume_text None))).
Proof.
  destruct (tokenize job_desc None) as [|e l] eqn:E.
  - exists 0%Q, []. split; [now apply score_empty_job|].
    split; [split; reflexivity|].
    split; [intros H; now apply Qlt_irrefl in H | intros (tok & [] & _)].
  - assert (Hne : tokenize job_desc None <> []) by (rewrite E; discriminate).
    destruct (score_nonempty_job resume_text job_desc Hne) as [Hs Hr].
    rewrite <- E.
    set (r_tokens := tokenize resume_text None) in *.
    set (j_tokens := tokenize job_desc None) in *.
    eexists; eexists; split; [exact Hr|].
    pose proof (sum_contributions_bounds r_tokens j_tokens
                  (profile_values job_desc)) as B.
    pose proof (sum_contributions_pos r_tokens j_tokens
                  (profile_values job_desc)) as P.
    assert (Z0 : sum (values (contributions r_tokens j_tokens)) = 0 <->
                 contributions r_tokens j_tokens = []).
    { split; [|intros ->; reflexivity].
      intros H0. destruct (contributions r_tokens j_tokens) eqn:C;
        [reflexivity|]. assert (1 <= 0) by (rewrite <- H0; apply P; discriminate). lia. }
    split; [rewrite Qred_frac_zero; exact Z0|].
    assert (Pos : (0 < Qred (sum (values (contributions r_tokens j_tokens))
                              # Z.to_pos (sum (values j_tokens))))%Q <->
                  contributions r_tokens j_tokens <> []).
    { rewrite Qred_correct. unfold Qlt; simpl. rewrite <- Z0. lia. }
    rewrite Pos, contributions_nonempty.
    split; intros (tok & Hj & Hrr); exists tok; split; try assumption;
      apply (get_pos_iff r_tokens tok (profile_values resume_text)); assumption.
Qed.

End ScorerProperties.

(** ** [most_common] *)

Lemma dict_of_items_In (items : list (str * Z)) (k : str) (v : Z) :
  In (k, v) (dict_of_items items) -> In (k, v) items.
Proof.
  unfold dict_of_items.
  assert (G : forall l d, In (k, v) (fold_left (fun d kv => dict_set d (fst kv) (snd kv)) l d) ->
                          In (k, v) d \/ In (k, v) l).
  { induction l as [|[k' v'] l IH]; intros d H; simpl in *; [auto|].
    apply IH in H as [H|H]; [|auto].
    apply dict_set_In in H as [[-> ->]|H]; auto. }
  intros H. apply G in H as [[]|H]. exact H.
Qed.

Lemma insert_desc_perm (e : str * Z) (l : list (str * Z)) :
  Permutation (insert_desc e l) (e :: l).
Proof.
  induction l as [|x l IH]; simpl; [reflexivity|].
  destruct (snd e <? snd x); [|reflexivity].
  rewrite IH. apply perm_swap.
Qed.

Lemma sorted_desc_perm (l : list (str * Z)) : Permutation (sorted_desc l) l.
Proof.
  induction l as [|x l IH]; simpl; [reflexivity|].
  rewrite insert_desc_perm. now constructor.
Qed.

Lemma insert_desc_sorted (e : str * Z) (l : list (str * Z)) :
  StronglySorted count_ge l -> StronglySorted count_ge (insert_desc e l).
Proof.
  induction 1 as [|x l Hs IH Hx]; simpl.
  - constructor; constructor.
  - destruct (snd e <? snd x) eqn:C.
    + apply Z.ltb_lt in C. constructor; [assumption|].
      apply (Permutation_Forall (Permutation_sym (insert_desc_perm e l))).
      constructor; [unfold count_ge; lia | assumption].
    + apply Z.ltb_ge in C. constructor; [now constructor|].
      constructor; [exact C|].
      apply (Forall_impl _ (P := count_ge x)); [|assumption].
      unfold count_ge; intros; lia.
Qed.

Lemma sorted_desc_sorted (l : list (str * Z)) :
  StronglySorted count_ge (sorted_desc l).
Proof.
  induction l as [|x l IH]; simpl; [constructor | now apply insert_desc_sorted].
Qed.

Lemma with_count_insert (c : Z) (e : str * Z) (l : list (str * Z)) :
  with_count c (insert_desc e l) = with_count c (e :: l).
Proof.
  unfold with_count.
  induction l as [|x l IH]; simpl; [reflexivity|].
  destruct (snd e <? snd x) eqn:C; [|reflexivity].
  apply Z.ltb_lt in C. simpl in *. rewrite IH.
  destruct (snd e =? c) eqn:Ee, (snd x =? c) eqn:Ex; try reflexivity.
  apply Z.eqb_eq in Ee, Ex. lia.
Qed.

Lemma with_count_sorted (c : Z) (l : list (str * Z)) :
  with_count c (sorted_desc l) = with_count c l.
Proof.
  induction l as [|x l IH]; simpl; [reflexivity|].
  rewrite with_count_insert. unfold with_count in *; simpl. now rewrite IH.
Qed.

Lemma dict_of_items_NoDup (items : list (str * Z)) :
  NoDup (keys items) -> dict_of_items items = items.
Proof.
  unfold dict_of_items.
  assert (G : forall l d, NoDup (keys d ++ keys l) ->
              fold_left (fun d kv => dict_set d (fst kv) (snd kv)) l d = d ++ l).
  { induction l as [|[k v] l IH]; intros d ND; simpl; [now rewrite app_nil_r|].
    rewrite dict_set_fresh.
    2:{ apply NoDup_remove_2 in ND. rewrite in_app_iff in ND. tauto. }
    rewrite IH; [now rewrite <- app_assoc|].
    unfold keys in *. rewrite map_app, <- app_assoc. exact ND. }
  intros ND. now rewrite G.
Qed.

Lemma NoDup_keys_firstn_sorted (n : nat) (d : dict) :
  NoDup (keys d) -> NoDup (keys (firstn n (sorted_desc d))).
Proof.
  intros ND.
  assert (S : NoDup (keys (sorted_desc d))).
  { apply (Permutation_NoDup (l := keys d)); [|assumption].
    apply Permutation_map, Permutation_sym, sorted_desc_perm. }
  rewrite <- (firstn_skipn n (sorted_desc d)) in S.
  unfold keys in *. rewrite map_app in S. now apply NoDup_app_remove_r in S.
Qed.

(** ** Tokens *)

Section TokenProperties.

Variable lower_ucs4 : str -> nat -> char -> list char.
Variable uni_isspace : char -> bool.
Variable STOPWORDS : list str.

Local Abbreviation tokens := (tokens_of lower_ucs4 uni_isspace STOPWORDS).
Local Abbreviation tokenize := (tokenize_and_weight lower_ucs4 uni_isspace STOPWORDS).

Lemma keep_not_space (c : char) :
  keep uni_isspace c = true -> isspace uni_isspace c = false ->
  allowed c = true.
Proof.
  unfold keep, allowed. intros K S. rewrite S in K.
  destruct (in_range 97 122 c), (in_range 48 57 c), (N.eqb c 45),
    (N.eqb c 43), (N.eqb c 35); simpl in *; congruence.
Qed.

Lemma re_sub_chars (text : str) :
  Forall (fun c => isspace uni_isspace c = true \/ allowed c = true)
         (re_sub uni_isspace text).
Proof.
  unfold re_sub. apply Forall_forall. intros c Hin.
  apply in_map_iff in Hin as (c0 & <- & _).
  destruct (keep uni_isspace c0) eqn:K; [|left; reflexivity].
  destruct (isspace uni_isspace c0) eqn:S; [now left|].
  right. now apply keep_not_space.
Qed.

Lemma split_from_Forall (P : char -> Prop) (text : str) :
  forall cur : str,
    Forall P cur ->
    Forall (fun c => isspace uni_isspace c = true \/ P c) text ->
    Forall (fun t => t <> [] /\ Forall P t) (split_from uni_isspace cur text).
Proof.
  assert (F : forall cur out,
             Forall P cur ->
             Forall (fun t => t <> [] /\ Forall P t) out ->
             Forall (fun t => t <> [] /\ Forall P t) (flush cur out)).
  { intros [|c cur] out Hc Ho; simpl; [assumption|].
    constructor; [|assumption]. split.
    - intros E. apply (f_equal (@List.length _)) in E.
      rewrite length_app in E. simpl in E. lia.
    - apply Forall_rev in Hc. exact Hc. }
  induction text as [|c text IH]; intros cur Hc Ht; simpl.
  - apply F; [assumption | constructor].
  - inversion Ht as [|? ? Hc0 Ht']; subst.
    destruct (isspace uni_isspace c) eqn:S.
    + apply F; [assumption|]. apply IH; [constructor | assumption].
    + apply IH; [|assumption]. constructor; [|assumption].
      destruct Hc0 as [Hc0|Hc0]; [congruence | assumption].
Qed.

Lemma tokens_spec (text : str) (t : str) :
  In t (tokens text) ->
  keep_token STOPWORDS t = true /\ Forall (fun c => allowed c = true) t.
Proof.
  unfold tokens_of. rewrite filter_In. intros [Hin Hk]. split; [assumption|].
  pose proof (split_from_Forall (fun c => allowed c = true)
                (re_sub uni_isspace (lower lower_ucs4 text)) []
                (Forall_nil _) (re_sub_chars _)) as H.
  rewrite Forall_forall in H. now apply H in Hin.
Qed.

Lemma lower_from_allowed (s : str) (rest : str) :
  Forall (fun c => allowed c = true) rest ->
  forall i, lower_from lower_ucs4 s i rest = rest.
Proof.
  induction 1 as [|c rest Hc _ IH]; intros i; simpl; [reflexivity|].
  rewrite IH. unfold lower_at, is_ascii, ascii_tolower.
  unfold allowed, in_range in Hc.
  rewrite !orb_true_iff, !andb_true_iff, !N.leb_le, !N.eqb_eq in Hc.
  replace (c <? 128)%N with true by (symmetry; apply N.ltb_lt; lia).
  unfold in_range.
  replace ((65 <=? c)%N && (c <=? 90)%N)%bool with false; [reflexivity|].
  symmetry. apply andb_false_iff. rewrite !N.leb_gt. lia.
Qed.

Lemma tokenize_In_Counter (text : str) (top_n : option Z) (k : str) (v : Z) :
  In (k, v) (tokenize text top_n) -> In (k, v) (Counter (tokens text)).
Proof.
  unfold tokenize_and_weight. destruct (truthy top_n); [|auto].
  intros H. apply dict_of_items_In in H.
  apply (Permutation_in _ (sorted_desc_perm _)).
  destruct top_n as [n|]; simpl in H; [|assumption].
  rewrite <- (firstn_skipn (Z.to_nat n)). apply in_or_app. now left.
Qed.

(** C6. Every key of a profile has more than one character (so it is
    not empty), is unchanged by lowercasing, consists of characters of
    [a-z], [0-9], [-], [+], [#] and is not a stopword; every count is
    positive.  This holds with and without [top_n]. *)
Theorem profile_keys_well_formed
        (text : str) (top_n : option Z) (k : str) (v : Z) :
  In (k, v) (tokenize text top_n) ->
  k <> [] /\ (1 < List.length k)%nat /\
  lower lower_ucs4 k = k /\
  Forall (fun c => allowed c = true) k /\
  ~ In k STOPWORDS /\
  0 < v.
Proof.
  intros H. apply tokenize_In_Counter, Counter_In in H as [Hin Hv].
  apply tokens_spec in Hin as [Hk Ha].
  unfold keep_token in Hk.
  rewrite !andb_true_iff, !negb_true_iff in Hk.
  destruct Hk as [[Hne Hsw] Hlen].
  split; [now apply str_eqb_neq|].
  split; [now apply Nat.ltb_lt|].
  split; [now apply lower_from_allowed|].
  split; [assumption|].
  split; [|lia].
  intros Hin. unfold is_stopword in Hsw.
  assert (E : existsb (str_eqb k) STOPWORDS = true)
    by (apply existsb_exists; exists k; split; [assumption | apply str_eqb_refl]).
  congruence.
Qed.

End TokenProperties.

(** ** Truncation to [top_n] *)

Section TopN.

Variable lower_ucs4 : str -> nat -> char -> list char.
Variable uni_isspace : char -> bool.
Variable STOPWORDS : list str.

Local Abbreviation tokenize := (tokenize_and_weight lower_ucs4 uni_isspace STOPWORDS).

(** C8, as the code has it.  Without [top_n], and with [top_n = 0], the
    full profile is returned.  With a non-zero [top_n] the result is a
    prefix of the full profile reordered by non-increasing count, entries
    of equal count keeping their first-encountered order; the prefix has
    [min (max top_n 0) (size of the profile)] entries. *)
Theorem top_n_prefix_of_stable_order (text : str) (n : Z) :
  n <> 0 ->
  let full := tokenize text None in
  let res := tokenize text (Some n) in
  tokenize text (Some 0) = full /\
  exists rest : dict,
    Permutation (res ++ rest) full /\
    StronglySorted count_ge (res ++ rest) /\
    (forall c, with_count c (res ++ rest) = with_count c full) /\
    List.length res = Nat.min (Z.to_nat n) (List.length full).
Proof.
  intros Hn full res. split; [reflexivity|].
  assert (R : res = firstn (Z.to_nat n) (sorted_desc full)).
  { unfold res, tokenize_and_weight. simpl.
    replace (n =? 0) with false by (symmetry; now apply Z.eqb_neq).
    simpl. apply dict_of_items_NoDup, NoDup_keys_firstn_sorted, Counter_NoDup. }
  exists (skipn (Z.to_nat n) (sorted_desc full)).
  rewrite R, firstn_skipn.
  split; [apply sorted_desc_perm|].
  split; [apply sorted_desc_sorted|].
  split; [intros c; apply with_count_sorted|].
  rewrite length_firstn.
  now rewrite (Permutation_length (sorted_desc_perm full)).
Qed.

End TopN.

(** ** The worked example *)

(** C4 fails as stated: with an empty stopword set the words "needed" and
    "required" stay in the job profile, which then has five keys and a
    total of 6, and the score is 1/3, not 1/2. *)
Lemma example_with_no_stopwords_differs :
  tokenize_and_weight plain_lower_ucs4 plain_isspace [] example_job None
  = [(lit "python", 2); (lit "developer", 1); (lit "needed", 1);
     (lit "experience", 1); (lit "required", 1)]
  /\ sum (values (tokenize_and_weight plain_lower_ucs4 plain_isspace []
                    example_job None)) <> 4
  /\ score_resume_against_job plain_lower_ucs4 plain_isspace []
       example_resume example_job
     <> Ok (1 # 2, [(lit "python", 2)]).
Proof.
  split; [vm_compute; reflexivity|].
  split; vm_compute; discriminate.
Qed.

(** C4, as the code has it.  With the stopword set {needed, required} the
    job profile is {python:2, developer:1, experience:1} with total 4, the
    resume profile is {experienced:1, python:2, engineer:1, years:1}, the
    overlap is 2, the score 1/2 and matched {python:2}.  With the empty
    stopword set the resume profile, the overlap and matched are the same,
    the job profile is {python:2, developer:1, needed:1, experience:1,
    required:1} with total 6, and the score is 1/3. *)
Theorem example_scores
        (lower_ucs4 : str -> nat -> char -> list char)
        (uni_isspace : char -> bool) :
  let tokenize := tokenize_and_weight lower_ucs4 uni_isspace in
  let score := score_resume_against_job lower_ucs4 uni_isspace in
  let two := [lit "needed"; lit "required"] in
  (tokenize two example_job None
   = [(lit "python", 2); (lit "developer", 1); (lit "experience", 1)]
   /\ sum (values (tokenize two example_job None)) = 4
   /\ tokenize two example_resume None
      = [(lit "experienced", 1); (lit "python", 2); (lit "engineer", 1);
         (lit "years", 1)]
   /\ fst (score_loop (tokenize two example_resume None)
                      (tokenize two example_job None)) = 2
   /\ score two example_resume example_job
      = Ok (1 # 2, [(lit "python", 2)]))
  /\
  (tokenize [] example_job None
   = [(lit "python", 2); (lit "developer", 1); (lit "needed", 1);
      (lit "experience", 1); (lit "required", 1)]
   /\ sum (values (tokenize [] example_job None)) = 6
   /\ tokenize [] example_resume None
      = [(lit "experienced", 1); (lit "python", 2); (lit "engineer", 1);
         (lit "years", 1)]
   /\ fst (score_loop (tokenize [] example_resume None)
                      (tokenize [] example_job None)) = 2
   /\ score [] example_resume example_job
      = Ok (1 # 3, [(lit "python", 2)])).
Proof.
  vm_compute. repeat split.
Qed.

(** C8 fails as stated: [top_n = 0] is supplied, and the profile comes
    back whole, with more than 0 entries. *)
Lemma top_n_zero_returns_everything :
  tokenize_and_weight plain_lower_ucs4 plain_isspace []
    (lit "aa bb aa") (Some 0)
  = [(lit "aa", 2); (lit "bb", 1)]
  /\ ~ (Z.of_nat (List.length
                    (tokenize_and_weight plain_lower_ucs4 plain_isspace []
                       (lit "aa bb aa") (Some 0))) <= 0).
Proof.
  split; [vm_compute; reflexivity | vm_compute; intros H; now apply H].
Qed.

(** ** Asymmetry *)

Section Asymmetry.

Variable lower_ucs4 : str -> nat -> char -> list char.
Variable uni_isspace : char -> bool.
Variable STOPWORDS : list str.

Local Abbreviation tokens := (tokens_of lower_ucs4 uni_isspace STOPWORDS).
Local Abbreviation score := (score_resume_against_job lower_ucs4 uni_isspace STOPWORDS).

Lemma lower_from_fixed (s : str) (rest : str) :
  Forall (fun c => is_ascii c = true /\ ascii_tolower c = c) rest ->
  forall i, lower_from lower_ucs4 s i rest = rest.
Proof.
  induction 1 as [|c rest [Ha Hl] _ IH]; intros i; simpl; [reflexivity|].
  rewrite IH. unfold lower_at. now rewrite Ha, Hl.
Qed.

Lemma re_sub_fixed (text : str) :
  Forall (fun c => keep uni_isspace c = true) text ->
  re_sub uni_isspace text = text.
Proof.
  unfold re_sub. induction 1 as [|c text Hc _ IH]; simpl; [reflexivity|].
  now rewrite Hc, IH.
Qed.

Lemma split_from_word (w : str) :
  Forall (fun c => isspace uni_isspace c = false) w ->
  forall cur rest,
    split_from uni_isspace cur (w ++ rest) =
    split_from uni_isspace (rev w ++ cur) rest.
Proof.
  induction 1 as [|c w Hc _ IH]; intros cur rest; simpl; [reflexivity|].
  rewrite Hc, IH. now rewrite <- app_assoc.
Qed.

Lemma flush_word (w : str) (out : list str) :
  w <> [] -> flush (rev w ++ []) out = w :: out.
Proof.
  intros Hw. rewrite app_nil_r. unfold flush.
  destruct (rev w) as [|c r] eqn:E.
  - apply (f_equal (@rev _)) in E. rewrite rev_involutive in E. now subst.
  - now rewrite <- E, rev_involutive.
Qed.

Lemma split_one_word (w : str) :
  Forall (fun c => isspace uni_isspace c = false) w -> w <> [] ->
  split uni_isspace w = [w].
Proof.
  intros Hs Hw. unfold split.
  rewrite <- (app_nil_r w) at 1. rewrite split_from_word by assumption.
  simpl. now apply flush_word.
Qed.

Lemma split_two_words (w1 w2 : str) :
  Forall (fun c => isspace uni_isspace c = false) w1 -> w1 <> [] ->
  Forall (fun c => isspace uni_isspace c = false) w2 -> w2 <> [] ->
  split uni_isspace (w1 ++ SPACE :: w2) = [w1; w2].
Proof.
  intros Hs1 Hw1 Hs2 Hw2. unfold split.
  rewrite split_from_word by assumption.
  change (split_from uni_isspace (rev w1 ++ []) (SPACE :: w2))
    with (flush (rev w1 ++ []) (split_from uni_isspace [] w2)).
  rewrite flush_word by assumption. f_equal.
  now apply split_one_word.
Qed.

Lemma longest_stopword (s : str) :
  In s STOPWORDS ->
  (List.length s <=
   fold_right (fun s m => Nat.max (List.length s) m) 0%nat STOPWORDS)%nat.
Proof.
  induction STOPWORDS as [|x l IH]; simpl; [tauto|].
  intros [->|H]; [lia|]. apply IH in H. lia.
Qed.

Lemma keep_long_word (w : str) :
  (1 + fold_right (fun s m => Nat.max (List.length s) m) 0%nat STOPWORDS
   < List.length w)%nat ->
  keep_token STOPWORDS w = true.
Proof.
  intros Hl. unfold keep_token.
  rewrite !andb_true_iff, !negb_true_iff. repeat split.
  - apply str_eqb_neq. intros ->. simpl in Hl. lia.
  - unfold is_stopword. apply not_true_is_false. intros E.
    apply existsb_exists in E as (s & Hin & Es).
    apply str_eqb_eq in Es. subst s. apply longest_stopword in Hin. lia.
  - apply Nat.ltb_lt. lia.
Qed.

Lemma score_two_against_one (R J t1 t2 : str) :
  t1 <> t2 -> tokens R = [t1; t2] -> tokens J = [t1] ->
  score R J = Ok (1%Q, [(t1, 1)]) /\ score J R = Ok (1 # 2, [(t1, 1)]).
Proof.
  intros Hne HR HJ. apply str_eqb_neq in Hne.
  assert (Hne' : str_eqb t2 t1 = false).
  { apply str_eqb_neq. apply str_eqb_neq in Hne. congruence. }
  unfold score_resume_against_job, tokenize_and_weight. simpl truthy.
  cbv iota. rewrite HR, HJ.
  assert (PJ : Counter [t1] = [(t1, 1)]) by reflexivity.
  assert (PR : Counter [t1; t2] = [(t1, 1); (t2, 1)])
    by (unfold Counter, get; simpl; now rewrite Hne).
  rewrite PJ, PR.
  assert (G11 : get [(t1, 1)] t1 0 = 1)
    by (unfold get; simpl; now rewrite str_eqb_refl).
  assert (G12 : get [(t1, 1)] t2 0 = 0)
    by (unfold get; simpl; now rewrite Hne).
  assert (G21 : get [(t1, 1); (t2, 1)] t1 0 = 1)
    by (unfold get; simpl; now rewrite str_eqb_refl).
  unfold score_loop, score_step. simpl fold_left.
  rewrite G11, G12, G21. split; reflexivity.
Qed.

(** C9. Whatever the stopword set, there are texts [R] and [J], with [R]
    longer than [J], for which the score of [R] against [J] and the score
    of [J] against [R] are different numbers: [J] is one word longer than
    every stopword, [R] is [J] followed by a second such word; one way
    round the score is 1, the other way round it is 1/2. *)
Theorem score_not_symmetric :
  exists (R J : str) (s1 s2 : Q) (m1 m2 : dict),
    score R J = Ok (s1, m1) /\
    score J R = Ok (s2, m2) /\
    ~ (s1 == s2)%Q /\
    (List.length J < List.length R)%nat.
Proof.
  set (n := S (S (fold_right (fun s m => Nat.max (List.length s) m)
                             0%nat STOPWORDS))).
  set (w1 := repeat 97%N n : str). set (w2 := repeat 98%N n : str).
  assert (L1 : @List.length char w1 = n) by apply repeat_length.
  assert (L2 : @List.length char w2 = n) by apply repeat_length.
  assert (C1 : Forall (fun c => c = 97%N) w1)
    by (apply Forall_forall; intros c Hc; now apply repeat_spec in Hc).
  assert (C2 : Forall (fun c => c = 98%N) w2)
    by (apply Forall_forall; intros c Hc; now apply repeat_spec in Hc).
  assert (N1 : w1 <> []) by (intros E; rewrite E in L1; discriminate).
  assert (N2 : w2 <> []) by (intros E; rewrite E in L2; discriminate).
  assert (D : w1 <> w2) by (unfold w1, w2, n; simpl; congruence).
  assert (K1 : keep_token STOPWORDS w1 = true)
    by (apply keep_long_word; rewrite L1; unfold n; lia).
  assert (K2 : keep_token STOPWORDS w2 = true)
    by (apply keep_long_word; rewrite L2; unfold n; lia).
  assert (T : forall P : char -> Prop,
             P 97%N -> P 98%N -> P SPACE ->
             Forall P w1 /\ Forall P w2 /\ Forall P (w1 ++ SPACE :: w2)).
  { intros P Pa Pb Ps.
    assert (Forall P w1) by (eapply Forall_impl; [|exact C1]; now intros ? ->).
    assert (Forall P w2) by (eapply Forall_impl; [|exact C2]; now intros ? ->).
    repeat split; try assumption.
    apply Forall_app; split; [assumption | now constructor]. }
  destruct (T (fun c => is_ascii c = true /\ ascii_tolower c = c))
    as (La & _ & Lab); try (split; reflexivity).
  destruct (T (fun c => keep uni_isspace c = true))
    as (Ka & _ & Kab); try reflexivity.
  assert (Sa : Forall (fun c => isspace uni_isspace c = false) w1)
    by (eapply Forall_impl; [|exact C1]; now intros ? ->).
  assert (Sb : Forall (fun c => isspace uni_isspace c = false) w2)
    by (eapply Forall_impl; [|exact C2]; now intros ? ->).
  assert (HJ : tokens w1 = [w1]).
  { unfold tokens_of, lower. rewrite lower_from_fixed by assumption.
    rewrite re_sub_fixed by assumption.
    rewrite split_one_word by assumption. simpl. now rewrite K1. }
  assert (HR : tokens (w1 ++ SPACE :: w2) = [w1; w2]).
  { unfold tokens_of, lower. rewrite lower_from_fixed by assumption.
    rewrite re_sub_fixed by assumption.
    rewrite split_two_words by assumption. simpl. now rewrite K1, K2. }
  exists (w1 ++ SPACE :: w2), w1, 1%Q, (1 # 2)%Q, [(w1, 1)], [(w1, 1)].
  destruct (score_two_against_one _ _ _ _ D HR HJ) as [E1 E2].
  split; [exact E1|]. split; [exact E2|]. split.
  - unfold Qeq; simpl. discriminate.
  - rewrite length_app. simpl. lia.
Qed.

End Asymmetry.

(** ** The extractor *)

Section ExtractorProperties.

Variable lower_ucs4 : str -> nat -> char -> list char.
Variable fs : str -> option (list byte).
Variable extract_text_pdf : str -> result (option str).
Variable docx_Document : str -> result (list str).

Local Abbreviation extract :=
  (extract_text lower_ucs4 fs extract_text_pdf docx_Document).

(** C5, as the code has it, for the tags other than docx.  Under pdf the
    result is the parser's text, and the empty string when the parser
    raises or returns nothing.  Under doc and txt, for a file that is
    there, the result is the file's bytes decoded as UTF-8 with the
    undecodable bytes dropped and the newlines translated; nothing is
    raised.  Under any tag outside pdf, docx, doc and txt the result is
    the empty string. *)
Theorem extract_text_outside_docx (path filename e : str) :
  after_last_dot filename = Some e ->
  let ext := lower lower_ucs4 e in
  (ext = lit "pdf" ->
   extract path filename =
   Ok match extract_text_pdf path with
      | Ok (Some text) => text
      | _ => []
      end)
  /\ (ext = lit "doc" \/ ext = lit "txt" ->
      forall content, fs path = Some content ->
      extract path filename =
      Ok (universal_newlines (utf8_ignore (List.map Byte.to_N content))))
  /\ (ext <> lit "pdf" -> ext <> lit "docx" -> ext <> lit "doc" ->
      ext <> lit "txt" ->
      extract path filename = Ok []).
Proof.
  intros He ext. unfold extract_text. rewrite He. fold ext.
  split; [|split].
  - intros ->. simpl. unfold extract_text_from_pdf.
    destruct (extract_text_pdf path) as [[t|]|]; reflexivity.
  - intros [-> | ->] content Hc; simpl;
      unfold extract_text_from_txt; now rewrite Hc.
  - intros H1 H2 H3 H4.
    apply str_eqb_neq in H1, H2, H3, H4. now rewrite H1, H2, H3, H4.
Qed.

End ExtractorProperties.

(** C5 fails as stated, twice over.  A docx parser that raises is not
    caught: the exception reaches the caller.  And bytes that are not
    UTF-8 under the txt tag are dropped one by one: the rest of the text
    comes back, not the empty string. *)
Lemma docx_failure_propagates_and_txt_keeps_text :
  extract_text plain_lower_ucs4 broken_docx_fs empty_pdf failing_docx
    (lit "upload") (lit "cv.docx") = Raise (LibraryError 0)
  /\ extract_text plain_lower_ucs4 broken_docx_fs empty_pdf failing_docx
       (lit "upload") (lit "cv.txt") = Ok (lit "hi")
  /\ lit "hi" <> [].
Proof.
  split; [reflexivity|]. split; [reflexivity | discriminate].
Qed.

(** ** Instances *)

Lemma score_matched_overlap_total_example :
  exists (s : Q) (matched : dict),
    score_resume_against_job plain_lower_ucs4 plain_isspace []
      example_resume example_job = Ok (s, matched) /\
    NoDup (keys matched) /\
    (forall tok,
        dict_get matched tok =
        match dict_get (tokenize_and_weight plain_lower_ucs4 plain_isspace []
                          example_job None) tok with
        | Some jcount =>
            if 0 <? get (tokenize_and_weight plain_lower_ucs4 plain_isspace []
                           example_resume None) tok 0
            then Some (Z.min (get (tokenize_and_weight plain_lower_ucs4
                                     plain_isspace [] example_resume None)
                                  tok 0) jcount)
            else None
        | None => None
        end) /\
    fst (score_loop
           (tokenize_and_weight plain_lower_ucs4 plain_isspace []
              example_resume None)
           (tokenize_and_weight plain_lower_ucs4 plain_isspace []
              example_job None)) = sum (values matched) /\
    1 <= sum (values (tokenize_and_weight plain_lower_ucs4 plain_isspace []
                        example_job None)) /\
    (s == inject_Z (sum (values matched))
          / inject_Z (sum (values (tokenize_and_weight plain_lower_ucs4
                                     plain_isspace [] example_job None))))%Q.
Proof.
  apply (score_matched_overlap_total plain_lower_ucs4 plain_isspace []
           example_resume example_job).
  vm_compute. discriminate.
Defined.

Lemma score_job_without_tokens_example :
  tokens_of plain_lower_ucs4 plain_isspace [] (lit "A & b!") = [] /\
  score_resume_against_job plain_lower_ucs4 plain_isspace []
    example_resume (lit "A & b!") = Ok (0%Q, []) /\
  score_resume_against_job plain_lower_ucs4 plain_isspace []
    example_resume [] = Ok (0%Q, []).
Proof.
  split; [reflexivity|].
  apply (score_job_without_tokens plain_lower_ucs4 plain_isspace []
           example_resume (lit "A & b!")).
  reflexivity.
Defined.

Lemma profile_keys_well_formed_example :
  lit "c++" <> [] /\ (1 < List.length (lit "c++"))%nat /\
  lower plain_lower_ucs4 (lit "c++") = lit "c++" /\
  Forall (fun c => allowed c = true) (lit "c++") /\
  ~ In (lit "c++") [lit "and"] /\
  0 < 2.
Proof.
  apply (profile_keys_well_formed plain_lower_ucs4 plain_isspace [lit "and"]
           (lit "C++ and C#, C++ & more") (Some 1) (lit "c++") 2).
  vm_compute. left. reflexivity.
Defined.

Lemma score_full_coverage_example :
  exists matched : dict,
    score_resume_against_job plain_lower_ucs4 plain_isspace []
      (lit "Python, SQL and more Python") (lit "python sql") = Ok (1%Q, matched).
Proof.
  apply (score_full_coverage plain_lower_ucs4 plain_isspace []
           (lit "Python, SQL and more Python") (lit "python sql")).
  - vm_compute. discriminate.
  - intros tok jcount H. vm_compute in H.
    destruct H as [H|[H|[]]]; inversion H; subst.
    + exists 2. split; [vm_compute; left; reflexivity | lia].
    + exists 1. split; [vm_compute; right; left; reflexivity | lia].
Defined.

Lemma top_n_prefix_of_stable_order_example :
  let full := tokenize_and_weight plain_lower_ucs4 plain_isspace []
                (lit "bb aa cc aa cc dd") None in
  let res := tokenize_and_weight plain_lower_ucs4 plain_isspace []
               (lit "bb aa cc aa cc dd") (Some 3) in
  tokenize_and_weight plain_lower_ucs4 plain_isspace []
    (lit "bb aa cc aa cc dd") (Some 0) = full /\
  exists rest : dict,
    Permutation (res ++ rest) full /\
    StronglySorted count_ge (res ++ rest) /\
    (forall c, with_count c (res ++ rest) = with_count c full) /\
    List.length res = Nat.min (Z.to_nat 3) (List.length full).
Proof.
  apply (top_n_prefix_of_stable_order plain_lower_ucs4 plain_isspace []
           (lit "bb aa cc aa cc dd") 3).
  lia.
Defined.

Lemma extract_text_outside_docx_example :
  let ext := lower plain_lower_ucs4 (lit "TXT") in
  (ext = lit "pdf" ->
   extract_text plain_lower_ucs4 broken_docx_fs empty_pdf failing_docx
     (lit "upload") (lit "my.cv.TXT") =
   Ok match empty_pdf (lit "upload") with
      | Ok (Some text) => text
      | _ => []
      end)
  /\ (ext = lit "doc" \/ ext = lit "txt" ->
      forall content, broken_docx_fs (lit "upload") = Some content ->
      extract_text plain_lower_ucs4 broken_docx_fs empty_pdf failing_docx
        (lit "upload") (lit "my.cv.TXT") =
      Ok (universal_newlines (utf8_ignore (List.map Byte.to_N content))))
  /\ (ext <> lit "pdf" -> ext <> lit "docx" -> ext <> lit "doc" ->
      ext <> lit "txt" ->
      extract_text plain_lower_ucs4 broken_docx_fs empty_pdf failing_docx
        (lit "upload") (lit "my.cv.TXT") = Ok []).
Proof.
  apply (extract_text_outside_docx plain_lower_ucs4 broken_docx_fs empty_pdf
           failing_docx (lit "upload") (lit "my.cv.TXT") (lit "TXT")).
  reflexivity.
Defined.

(** * Further properties of the code *)

(** ** File names and the upload filter *)

Lemma after_last_dot_None (s : str) :
  after_last_dot s = None <-> contains DOT s = false.
Proof.
  unfold contains.
  induction s as [|c s IH]; cbn [after_last_dot existsb]; [tauto|].
  destruct (after_last_dot s) as [e|].
  - split; [discriminate|]. intros H. apply orb_false_iff in H as [_ H].
    apply IH in H. discriminate.
  - assert (E : existsb (N.eqb DOT) s = false) by now apply IH.
    rewrite E, orb_false_r. rewrite (N.eqb_sym DOT c). unfold DOT.
    destruct (N.eqb c 46); split; congruence.
Qed.

Lemma after_last_dot_app (base e : str) :
  contains DOT e = false -> after_last_dot (base ++ DOT :: e) = Some e.
Proof.
  intros He. apply after_last_dot_None in He.
  induction base as [|c base IH]; simpl.
  - now rewrite He.
  - now rewrite IH.
Qed.

(** X1. The extension taken by [rsplit(".", 1)[1]] is what follows the
    last dot: the split gives [e] exactly when the name is some base, a
    dot, and [e], with no dot in [e]. *)
Theorem after_last_dot_spec (s e : str) :
  after_last_dot s = Some e <->
  (exists base, s = base ++ DOT :: e) /\ contains DOT e = false.
Proof.
  split.
  - revert e. induction s as [|c s IH]; simpl; [discriminate|].
    intros e. destruct (after_last_dot s) as [e'|] eqn:A.
    + intros [= ->]. destruct (IH e eq_refl) as [[base ->] He].
      split; [exists (c :: base); reflexivity | assumption].
    + destruct (N.eqb c 46) eqn:C; [|discriminate].
      intros [= ->]. apply N.eqb_eq in C. subst c.
      split; [exists []; reflexivity | now apply after_last_dot_None].
  - intros [[base ->] He]. now apply after_last_dot_app.
Qed.

Section UploadProperties.

Variable lower_ucs4 : str -> nat -> char -> list char.
Variable fs : str -> option (list byte).
Variable extract_text_pdf : str -> result (option str).
Variable docx_Document : str -> result (list str).

Local Abbreviation extract :=
  (extract_text lower_ucs4 fs extract_text_pdf docx_Document).

(** X2. [allowed_file] never raises: the index into the split is guarded
    by the test for a dot.  It answers true exactly when the name has an
    extension that lowercases to pdf, docx, doc or txt. *)
Theorem allowed_file_total (filename : str) :
  exists b : bool,
    allowed_file lower_ucs4 filename = Ok b /\
    (b = true <->
     exists e, after_last_dot filename = Some e /\
               In (lower lower_ucs4 e) ALLOWED_EXTENSIONS).
Proof.
  unfold allowed_file.
  destruct (contains DOT filename) eqn:C.
  - destruct (after_last_dot filename) as [e|] eqn:A.
    + eexists; split; [reflexivity|]. rewrite existsb_exists. split.
      * intros (x & Hin & Hx). apply str_eqb_eq in Hx. subst x. eauto.
      * intros (e' & [= <-] & Hin). exists (lower lower_ucs4 e).
        split; [assumption | apply str_eqb_refl].
    + apply after_last_dot_None in A. congruence.
  - exists false. split; [reflexivity|]. split; [discriminate|].
    intros (e & A & _). apply after_last_dot_None in C. congruence.
Qed.

(** X3. A file name accepted by [allowed_file] is always dispatched to
    one of the three readers by [extract_text]: the split cannot fail and
    the fallback branch that returns the empty string is not reached. *)
Theorem allowed_file_dispatch (path filename : str) :
  allowed_file lower_ucs4 filename = Ok true ->
  exists e,
    after_last_dot filename = Some e /\
    ((lower lower_ucs4 e = lit "pdf" /\
      extract path filename = extract_text_from_pdf extract_text_pdf path)
     \/ (lower lower_ucs4 e = lit "docx" /\
         extract path filename = extract_text_from_docx docx_Document path)
     \/ ((lower lower_ucs4 e = lit "doc" \/ lower lower_ucs4 e = lit "txt") /\
         extract path filename = extract_text_from_txt fs path)).
Proof.
  unfold allowed_file, extract_text.
  destruct (contains DOT filename); [|discriminate].
  destruct (after_last_dot filename) as [e|]; [|discriminate].
  intros [= H]. exists e. split; [reflexivity|].
  rewrite !orb_true_iff, !str_eqb_eq in H.
  destruct H as [H|[H|[H|[H|H]]]]; [| | | |discriminate];
    rewrite H; simpl; auto.
Qed.

(** X4. A file name without a dot makes [extract_text] raise IndexError,
    whatever the file and the parsers. *)
Theorem extract_text_without_dot (path filename : str) :
  contains DOT filename = false ->
  extract path filename = Raise IndexError.
Proof.
  intros C. apply after_last_dot_None in C.
  unfold extract_text. now rewrite C.
Qed.

Lemma lower_from_ascii (s : str) (rest : str) :
  forallb is_ascii rest = true ->
  forall i, lower_from lower_ucs4 s i rest = List.map ascii_tolower rest.
Proof.
  induction rest as [|c rest IH]; simpl; [reflexivity|].
  intros H i. apply andb_true_iff in H as [Hc Hr].
  rewrite (IH Hr). unfold lower_at. now rewrite Hc.
Qed.

Lemma lower_ascii (s : str) :
  forallb is_ascii s = true -> lower lower_ucs4 s = List.map ascii_tolower s.
Proof. intros H. now apply lower_from_ascii. Qed.

(** X5. Extraction looks at the file name only through its extension,
    without regard to ASCII letter case: two names whose ASCII extensions
    agree after lowercasing are treated alike, whatever the base names. *)
Theorem extract_text_extension_only (path base1 base2 e1 e2 : str) :
  contains DOT e1 = false -> contains DOT e2 = false ->
  forallb is_ascii e1 = true -> forallb is_ascii e2 = true ->
  List.map ascii_tolower e1 = List.map ascii_tolower e2 ->
  extract path (base1 ++ DOT :: e1) = extract path (base2 ++ DOT :: e2).
Proof.
  intros D1 D2 A1 A2 E. unfold extract_text.
  rewrite !after_last_dot_app by assumption.
  rewrite !lower_ascii by assumption. now rewrite E.
Qed.

Lemma collect_paragraphs (paragraphs acc : list str) :
  fold_left (fun acc para => acc ++ [para]) paragraphs acc = acc ++ paragraphs.
Proof.
  revert acc. induction paragraphs as [|p ps IH]; intros acc; simpl.
  - now rewrite app_nil_r.
  - now rewrite IH, <- app_assoc.
Qed.

(** X6. Under the docx tag the result is the paragraph texts joined by
    newlines when the parser succeeds, and when the parser raises, the
    same exception reaches the caller. *)
Theorem extract_text_docx (path filename e : str) :
  after_last_dot filename = Some e ->
  lower lower_ucs4 e = lit "docx" ->
  extract path filename =
  match docx_Document path with
  | Ok paragraphs => Ok (join [10%N] paragraphs)
  | Raise err => Raise err
  end.
Proof.
  intros A L. unfold extract_text. rewrite A, L. simpl.
  unfold extract_text_from_docx.
  destruct (docx_Document path) as [ps|err]; [|reflexivity].
  now rewrite collect_paragraphs.
Qed.

End UploadProperties.

(** ** Decoding and newline translation *)

Lemma length_induction {A : Type} (P : list A -> Prop) :
  (forall l, (forall l', (List.length l' < List.length l)%nat -> P l') -> P l) ->
  forall l, P l.
Proof.
  intros H l.
  assert (G : forall n l, (List.length l < n)%nat -> P l).
  { induction n as [|n IH]; intros l0 Hl; [lia|].
    apply H. intros l' Hl'. apply IH. lia. }
  apply (G (S (List.length l))). lia.
Qed.

Ltac bools :=
  repeat match goal with
         | H : (_ && _)%bool = true |- _ => apply andb_true_iff in H as [? ?]
         | H : in_range _ _ _ = true |- _ =>
             unfold in_range in H; apply andb_true_iff in H as [? ?]
         | H : is_cont _ = true |- _ => unfold is_cont in H
         | H : N.leb _ _ = true |- _ => apply N.leb_le in H
         | H : N.ltb _ _ = true |- _ => apply N.ltb_lt in H
         | H : N.ltb _ _ = false |- _ => apply N.ltb_ge in H
         | H : N.eqb _ _ = true |- _ => apply N.eqb_eq in H
         | H : N.eqb _ _ = false |- _ => apply N.eqb_neq in H
         end.

Lemma scalar_intro (c : N) :
  (c < 55296 \/ 57343 < c < 1114112)%N -> scalar c = true.
Proof.
  intros H. unfold scalar. rewrite orb_true_iff, andb_true_iff, !N.ltb_lt. lia.
Qed.

Lemma utf8_ignore_step (b0 : N) (r0 : list N) :
  utf8_ignore (b0 :: r0) = utf8_ignore r0 \/
  exists (c : N) (k : nat),
    scalar c = true /\ utf8_ignore (b0 :: r0) = c :: utf8_ignore (skipn k r0).
Proof.
  cbn [utf8_ignore].
  destruct (N.ltb b0 128) eqn:A.
  { right. exists b0, 0%nat. split; [|reflexivity].
    bools. apply scalar_intro. lia. }
  destruct r0 as [|b1 r1]; [left; reflexivity|].
  destruct (in_range 194 223 b0 && is_cont b1)%bool eqn:B.
  { right. eexists; exists 1%nat. split; [|reflexivity].
    bools. apply scalar_intro. lia. }
  destruct r1 as [|b2 r2]; [left; reflexivity|].
  destruct (in_range 224 239 b0 && second_of_3 b0 b1 && is_cont b2)%bool eqn:C.
  { right. eexists; exists 2%nat. split; [|reflexivity].
    bools. apply scalar_intro. unfold second_of_3 in *.
    destruct (N.eqb b0 224) eqn:E1; [bools; lia|].
    destruct (N.eqb b0 237) eqn:E2; bools; lia. }
  destruct r2 as [|b3 r3]; [left; reflexivity|].
  destruct (in_range 240 244 b0 && second_of_4 b0 b1 && is_cont b2
            && is_cont b3)%bool eqn:D; [|left; reflexivity].
  right. eexists; exists 3%nat. split; [|reflexivity].
  bools. apply scalar_intro. unfold second_of_4 in *.
  destruct (N.eqb b0 240) eqn:E1; [bools; lia|].
  destruct (N.eqb b0 244) eqn:E2; bools; lia.
Qed.

Lemma utf8_ignore_values (bs : list N) :
  Forall (fun c => scalar c = true) (utf8_ignore bs).
Proof.
  induction bs as [bs IH] using length_induction.
  destruct bs as [|b0 r0]; [constructor|].
  destruct (utf8_ignore_step b0 r0) as [->|(c & k & Hc & ->)].
  - apply IH. simpl; lia.
  - constructor; [assumption|]. apply IH. simpl.
    pose proof (length_skipn k r0). lia.
Qed.

(** X7. Whatever the bytes, the decoder yields only Unicode scalar
    values: code points below 110000 (hex), none of them a surrogate. *)
Theorem utf8_ignore_scalar (bs : list N) :
  Forall (fun c => scalar c = true) (utf8_ignore bs).
Proof. apply utf8_ignore_values. Qed.

Lemma utf8_ignore_below_128 (bs : list N) :
  forallb is_ascii bs = true -> utf8_ignore bs = bs.
Proof.
  induction bs as [|b bs IH]; [reflexivity|].
  cbn [forallb utf8_ignore]. intros H. apply andb_true_iff in H as [Hb Hr].
  unfold is_ascii in Hb. now rewrite Hb, IH.
Qed.

(** X8. Bytes below 128 decode to themselves: an ASCII file is read
    unchanged by the decoder. *)
Theorem utf8_ignore_ascii (bs : list N) :
  forallb is_ascii bs = true -> utf8_ignore bs = bs.
Proof. apply utf8_ignore_below_128. Qed.

Ltac div_lia := zify; Z.to_euclidean_division_equations; lia.

Lemma in_range_true (lo hi c : N) :
  (lo <= c <= hi)%N -> in_range lo hi c = true.
Proof.
  intros H. unfold in_range. rewrite andb_true_iff, !N.leb_le. lia.
Qed.

Lemma in_range_false (lo hi c : N) :
  (c < lo \/ hi < c)%N -> in_range lo hi c = false.
Proof.
  intros H. unfold in_range. rewrite andb_false_iff, !N.leb_gt. lia.
Qed.

Lemma utf8_ignore_cons (b0 : N) (r0 : list N) :
  utf8_ignore (b0 :: r0) =
  if N.ltb b0 128 then b0 :: utf8_ignore r0
  else
    match r0 with
    | [] => []
    | b1 :: r1 =>
        if (in_range 194 223 b0 && is_cont b1)%bool
        then ((b0 - 192) * 64 + (b1 - 128))%N :: utf8_ignore r1
        else
          match r1 with
          | [] => utf8_ignore r0
          | b2 :: r2 =>
              if (in_range 224 239 b0 && second_of_3 b0 b1 && is_cont b2)%bool
              then ((b0 - 224) * 4096 + (b1 - 128) * 64 + (b2 - 128))%N
                   :: utf8_ignore r2
              else
                match r2 with
                | [] => utf8_ignore r0
                | b3 :: r3 =>
                    if (in_range 240 244 b0 && second_of_4 b0 b1
                        && is_cont b2 && is_cont b3)%bool
                    then ((b0 - 240) * 262144 + (b1 - 128) * 4096
                          + (b2 - 128) * 64 + (b3 - 128))%N
                         :: utf8_ignore r3
                    else utf8_ignore r0
                end
          end
    end.
Proof. destruct r0 as [|b1 [|b2 [|b3 r3]]]; reflexivity. Qed.

Lemma utf8_decode_encoded (c : N) (rest : list N) :
  scalar c = true ->
  utf8_ignore (utf8_encode c ++ rest) = c :: utf8_ignore rest.
Proof.
  intros Hs. unfold scalar in Hs.
  rewrite orb_true_iff, andb_true_iff, !N.ltb_lt in Hs.
  unfold utf8_encode, is_cont.
  destruct (N.ltb c 128) eqn:R1.
  { cbn [app]. rewrite utf8_ignore_cons. now rewrite R1. }
  destruct (N.ltb c 2048) eqn:R2.
  { bools. cbn [app]. rewrite utf8_ignore_cons. cbv beta iota.
    replace (N.ltb (192 + c / 64) 128) with false
      by (symmetry; apply N.ltb_ge; div_lia).
    unfold is_cont.
    rewrite (in_range_true 194 223 (192 + c / 64)) by div_lia.
    rewrite (in_range_true 128 191 (128 + c mod 64)) by div_lia.
    cbn [andb]. f_equal. div_lia. }
  destruct (N.ltb c 65536) eqn:R3.
  { bools. cbn [app]. rewrite utf8_ignore_cons. cbv beta iota.
    replace (N.ltb (224 + c / 4096) 128) with false
      by (symmetry; apply N.ltb_ge; div_lia).
    unfold is_cont.
    rewrite (in_range_false 194 223 (224 + c / 4096)) by div_lia.
    rewrite (in_range_true 224 239 (224 + c / 4096)) by div_lia.
    assert (S3 : second_of_3 (224 + c / 4096) (128 + (c / 64) mod 64) = true).
    { unfold second_of_3, is_cont.
      destruct (N.eqb (224 + c / 4096) 224) eqn:E1;
        [bools; apply in_range_true; div_lia|].
      destruct (N.eqb (224 + c / 4096) 237) eqn:E2;
        bools; apply in_range_true; div_lia. }
    rewrite S3.
    rewrite (in_range_true 128 191 (128 + c mod 64)) by div_lia.
    cbn [andb]. f_equal. div_lia. }
  bools. cbn [app]. rewrite utf8_ignore_cons. cbv beta iota.
  replace (N.ltb (240 + c / 262144) 128) with false
    by (symmetry; apply N.ltb_ge; div_lia).
  unfold is_cont.
  rewrite (in_range_false 194 223 (240 + c / 262144)) by div_lia.
  rewrite (in_range_false 224 239 (240 + c / 262144)) by div_lia.
  rewrite (in_range_true 240 244 (240 + c / 262144)) by div_lia.
  assert (S4 : second_of_4 (240 + c / 262144) (128 + (c / 4096) mod 64) = true).
  { unfold second_of_4, is_cont.
    destruct (N.eqb (240 + c / 262144) 240) eqn:E1;
      [bools; apply in_range_true; div_lia|].
    destruct (N.eqb (240 + c / 262144) 244) eqn:E2;
      bools; apply in_range_true; div_lia. }
  rewrite S4.
  rewrite (in_range_true 128 191 (128 + (c / 64) mod 64)) by div_lia.
  rewrite (in_range_true 128 191 (128 + c mod 64)) by div_lia.
  cbn [andb]. f_equal. div_lia.
Qed.

(** X9. Decoding loses nothing of a well-formed file: the UTF-8 encoding
    of any text of scalar values decodes back to that text. *)
Theorem utf8_round_trip (text : str) :
  Forall (fun c => scalar c = true) text ->
  utf8_ignore (flat_map utf8_encode text) = text.
Proof.
  induction 1 as [|c text Hc _ IH]; [reflexivity|].
  cbn [flat_map]. now rewrite utf8_decode_encoded, IH.
Qed.

Lemma universal_newlines_cons (c : char) (s : str) :
  universal_newlines (c :: s) =
  if N.eqb c 13 then
    10%N :: match s with
            | [] => []
            | c' :: s' =>
                if N.eqb c' 10 then universal_newlines s'
                else universal_newlines s
            end
  else c :: universal_newlines s.
Proof. destruct s; reflexivity. Qed.

Lemma universal_newlines_chars (s : str) (x : char) :
  In x (universal_newlines s) -> x <> CR /\ (In x s \/ x = 10%N).
Proof.
  induction s as [s IH] using length_induction.
  destruct s as [|c s]; [intros []|].
  rewrite universal_newlines_cons.
  destruct (N.eqb c 13) eqn:E.
  - intros [<-|H]; [split; [discriminate | now right]|].
    destruct s as [|c' s']; [destruct H|].
    destruct (N.eqb c' 10).
    + apply IH in H; [|simpl; lia]. simpl. tauto.
    + apply IH in H; [|simpl; lia]. simpl in *. tauto.
  - intros [<-|H].
    + apply N.eqb_neq in E. split; [exact E | left; now left].
    + apply IH in H; [|simpl; lia]. simpl. tauto.
Qed.

Lemma universal_newlines_fixed (s : str) :
  ~ In CR s -> universal_newlines s = s.
Proof.
  induction s as [|c s IH]; [reflexivity|].
  intros H. rewrite universal_newlines_cons.
  destruct (N.eqb c 13) eqn:E.
  - apply N.eqb_eq in E. exfalso. apply H. now left.
  - rewrite IH; [reflexivity|]. intros Hin. apply H. now right.
Qed.

(** X10. Newline translation leaves no carriage return in the text, adds
    no character other than a line feed, and changes nothing when applied
    a second time. *)
Theorem universal_newlines_no_CR (s : str) :
  ~ In CR (universal_newlines s) /\
  (forall x, In x (universal_newlines s) -> In x s \/ x = 10%N) /\
  universal_newlines (universal_newlines s) = universal_newlines s.
Proof.
  assert (H : ~ In CR (universal_newlines s)).
  { intros H. apply universal_newlines_chars in H. tauto. }
  split; [exact H|]. split.
  - intros x Hx. now apply universal_newlines_chars in Hx.
  - now apply universal_newlines_fixed.
Qed.

Section TextFiles.

Variable lower_ucs4 : str -> nat -> char -> list char.
Variable fs : str -> option (list byte).
Variable extract_text_pdf : str -> result (option str).
Variable docx_Document : str -> result (list str).

Local Abbreviation extract :=
  (extract_text lower_ucs4 fs extract_text_pdf docx_Document).

Lemma extract_text_as_txt (path filename e : str) :
  after_last_dot filename = Some e ->
  lower lower_ucs4 e = lit "doc" \/ lower lower_ucs4 e = lit "txt" ->
  extract path filename = extract_text_from_txt fs path.
Proof.
  intros A L. unfold extract_text. rewrite A.
  destruct L as [-> | ->]; reflexivity.
Qed.

(** X11. The text extracted from an existing file under the doc or txt
    tag contains no carriage return and only Unicode scalar values,
    whatever the bytes of the file. *)
Theorem extract_text_txt_clean (path filename e : str) (content : list byte) :
  after_last_dot filename = Some e ->
  lower lower_ucs4 e = lit "doc" \/ lower lower_ucs4 e = lit "txt" ->
  fs path = Some content ->
  exists text,
    extract path filename = Ok text /\
    ~ In CR text /\
    Forall (fun c => scalar c = true) text.
Proof.
  intros A L F. rewrite (extract_text_as_txt path filename e A L).
  unfold extract_text_from_txt. rewrite F.
  eexists. split; [reflexivity|].
  split; [intros H; apply universal_newlines_chars in H; tauto|].
  apply Forall_forall. intros x Hx.
  apply universal_newlines_chars in Hx as [_ [Hx| ->]]; [|reflexivity].
  pose proof (utf8_ignore_values (List.map Byte.to_N content)) as S.
  rewrite Forall_forall in S. now apply S.
Qed.

(** X12. An existing file of ASCII bytes without a carriage return is
    returned under the doc or txt tag byte for byte. *)
Theorem extract_text_txt_ascii (path filename e : str) (content : list byte) :
  after_last_dot filename = Some e ->
  lower lower_ucs4 e = lit "doc" \/ lower lower_ucs4 e = lit "txt" ->
  fs path = Some content ->
  forallb is_ascii (List.map Byte.to_N content) = true ->
  ~ In CR (List.map Byte.to_N content) ->
  extract path filename = Ok (List.map Byte.to_N content).
Proof.
  intros A L F Ha Hc. rewrite (extract_text_as_txt path filename e A L).
  unfold extract_text_from_txt. rewrite F.
  rewrite utf8_ignore_below_128 by assumption.
  now rewrite universal_newlines_fixed.
Qed.

End TextFiles.

(** ** Counts *)

Lemma dict_get_set (d : dict) (k k' : str) (v : Z) :
  dict_get (dict_set d k v) k' =
  if str_eqb k k' then Some v else dict_get d k'.
Proof.
  induction d as [|[k0 v0] d IH]; simpl; [reflexivity|].
  destruct (str_eqb k0 k) eqn:E0; simpl.
  - apply str_eqb_eq in E0. subst k0. now destruct (str_eqb k k').
  - rewrite IH. destruct (str_eqb k0 k') eqn:E1; [|reflexivity].
    apply str_eqb_eq in E1. subst k'. now rewrite (proj2 (str_eqb_neq k k0))
      by (apply str_eqb_neq in E0; congruence).
Qed.

Lemma get_set (d : dict) (k k' : str) (v : Z) :
  get (dict_set d k v) k' 0 = if str_eqb k k' then v else get d k' 0.
Proof.
  unfold get. rewrite dict_get_set. now destruct (str_eqb k k').
Qed.

Lemma occurrences_cons (t x : str) (l : list str) :
  occurrences t (x :: l) = (if str_eqb x t then 1 else 0) + occurrences t l.
Proof.
  unfold occurrences. cbn [List.filter].
  destruct (str_eqb t x) eqn:E1, (str_eqb x t) eqn:E2;
    cbn [List.length]; try lia.
  - apply str_eqb_eq in E1. apply str_eqb_neq in E2. congruence.
  - apply str_eqb_eq in E2. apply str_eqb_neq in E1. congruence.
Qed.

Lemma occurrences_nonneg (t : str) (l : list str) : 0 <= occurrences t l.
Proof. unfold occurrences. lia. Qed.

Lemma occurrences_pos (t : str) (l : list str) :
  0 < occurrences t l <-> In t l.
Proof.
  induction l as [|x l IH]; [simpl; unfold occurrences; simpl; split; [lia | tauto]|].
  rewrite occurrences_cons. pose proof (occurrences_nonneg t l). simpl.
  case_str x t; [split; [auto | lia]|].
  rewrite <- IH. split; [intros; right; lia | intros [?|?]; [congruence | lia]].
Qed.

Lemma occurrences_app (t : str) (l1 l2 : list str) :
  occurrences t (l1 ++ l2) = occurrences t l1 + occurrences t l2.
Proof.
  unfold occurrences. rewrite filter_app, length_app. lia.
Qed.

Lemma occurrences_perm (t : str) (l1 l2 : list str) :
  Permutation l1 l2 -> occurrences t l1 = occurrences t l2.
Proof.
  induction 1 as [|x l1 l2 _ IH|x y l|l1 l2 l3 _ IH1 _ IH2].
  - reflexivity.
  - rewrite !occurrences_cons. lia.
  - rewrite !occurrences_cons. lia.
  - lia.
Qed.

Lemma Counter_fold_get (l : list str) (t : str) :
  forall d : dict,
    get (fold_left (fun d t => dict_set d t (get d t 0 + 1)) l d) t 0 =
    get d t 0 + occurrences t l.
Proof.
  induction l as [|x l IH]; intros d; simpl.
  - unfold occurrences; simpl; lia.
  - rewrite IH, get_set, occurrences_cons.
    case_str x t; lia.
Qed.

Lemma Counter_get (l : list str) (t : str) :
  get (Counter l) t 0 = occurrences t l.
Proof. unfold Counter. now rewrite Counter_fold_get. Qed.

Lemma sum_values_incr (d : dict) (k : str) :
  sum (values (dict_set d k (get d k 0 + 1))) = sum (values d) + 1.
Proof.
  induction d as [|[k0 v0] d IH].
  - reflexivity.
  - unfold get in *. simpl. case_str k0 k; simpl.
    + rewrite !sum_cons. lia.
    + rewrite !sum_cons, IH. lia.
Qed.

Lemma Counter_fold_sum (l : list str) :
  forall d : dict,
    sum (values (fold_left (fun d t => dict_set d t (get d t 0 + 1)) l d)) =
    sum (values d) + Z.of_nat (List.length l).
Proof.
  induction l as [|x l IH]; intros d; simpl List.length; simpl fold_left.
  - lia.
  - rewrite IH, sum_values_incr. lia.
Qed.

Lemma Counter_keys (l : list str) (t : str) :
  In t (keys (Counter l)) <-> In t l.
Proof.
  assert (V : forall k v, In (k, v) (Counter l) -> 1 <= v)
    by (intros k v H; now apply Counter_In in H).
  pose proof (get_pos_iff (Counter l) t V) as G.
  rewrite Counter_get, occurrences_pos in G. tauto.
Qed.

Lemma Counter_entries (l : list str) (k : str) (v : Z) :
  In (k, v) (Counter l) <-> In k l /\ v = occurrences k l.
Proof.
  split.
  - intros H. split; [now apply Counter_In in H|].
    rewrite <- Counter_get. unfold get.
    now rewrite (In_dict_get _ _ _ (Counter_NoDup l) H).
  - intros [Hk ->]. apply Counter_keys in Hk.
    apply dict_get_In. rewrite <- Counter_get. unfold get.
    destruct (dict_get (Counter l) k) eqn:G; [reflexivity|].
    apply dict_get_None in G. tauto.
Qed.

Section ProfileCounts.

Variable lower_ucs4 : str -> nat -> char -> list char.
Variable uni_isspace : char -> bool.
Variable STOPWORDS : list str.

Local Abbreviation tokens := (tokens_of lower_ucs4 uni_isspace STOPWORDS).
Local Abbreviation tokenize := (tokenize_and_weight lower_ucs4 uni_isspace STOPWORDS).
Local Abbreviation score := (score_resume_against_job lower_ucs4 uni_isspace STOPWORDS).

Lemma profile_total (text : str) :
  sum (values (tokenize text None)) = Z.of_nat (List.length (tokens text)).
Proof.
  change (tokenize text None) with (Counter (tokens text)).
  unfold Counter. now rewrite Counter_fold_sum.
Qed.

(** X13. The full profile counts occurrences: the count of a token is
    the number of times it occurs among the tokens of the text (0 when it
    does not), the keys are exactly the tokens that occur, and the counts
    add up to the number of tokens. *)
Theorem profile_counts_occurrences (text : str) :
  (forall t, get (tokenize text None) t 0 = occurrences t (tokens text)) /\
  (forall t, In t (keys (tokenize text None)) <-> In t (tokens text)) /\
  sum (values (tokenize text None)) = Z.of_nat (List.length (tokens text)).
Proof.
  split; [intros t; apply Counter_get|].
  split; [intros t; apply Counter_keys|].
  apply profile_total.
Qed.

End ProfileCounts.

(** ** Further properties of the score *)

Lemma contributions_ext (r r' j : dict) :
  (forall k, In k (keys j) -> get r k 0 = get r' k 0) ->
  contributions r j = contributions r' j.
Proof.
  induction j as [|[k v] j IH]; intros H; simpl; [reflexivity|].
  rewrite (H k) by (simpl; auto).
  rewrite IH; [reflexivity|]. intros k' Hk'. apply H. simpl; auto.
Qed.

Lemma sum_perm (xs ys : list Z) : Permutation xs ys -> sum xs = sum ys.
Proof.
  induction 1 as [|x l1 l2 _ IH|x y l|l1 l2 l3 _ IH1 _ IH2].
  - reflexivity.
  - rewrite !sum_cons. lia.
  - rewrite !sum_cons. lia.
  - lia.
Qed.

Lemma Counter_perm (l l' : list str) :
  Permutation l l' -> Permutation (Counter l) (Counter l').
Proof.
  intros P. apply NoDup_Permutation.
  - apply (NoDup_map_inv fst), Counter_NoDup.
  - apply (NoDup_map_inv fst), Counter_NoDup.
  - intros [k v]. rewrite !Counter_entries.
    rewrite (occurrences_perm k l l' P).
    split; intros [H ->]; split; try reflexivity.
    + now apply (Permutation_in _ P).
    + now apply (Permutation_in _ (Permutation_sym P)).
Qed.

Lemma sum_contributions_mono (r r' j : dict) :
  (forall k, get r k 0 <= get r' k 0) ->
  (forall k v, In (k, v) j -> 1 <= v) ->
  sum (values (contributions r j)) <= sum (values (contributions r' j)).
Proof.
  intros Hr. induction j as [|[k v] j IH]; intros Hv; simpl; [lia|].
  assert (1 <= v) by (apply (Hv k); now left).
  assert (sum (values (contributions r j)) <= sum (values (contributions r' j)))
    by (apply IH; intros k' v' ?; apply (Hv k'); now right).
  specialize (Hr k).
  destruct (0 <? get r k 0) eqn:A, (0 <? get r' k 0) eqn:B; simpl;
    rewrite ?sum_cons;
    rewrite ?Z.ltb_lt, ?Z.ltb_ge in *; lia.
Qed.

Lemma Qred_zero (p : positive) : Qred (0 # p) = 0%Q.
Proof.
  change 0%Q with (Qred 0). apply Qred_complete. unfold Qeq; simpl. lia.
Qed.

Lemma contributions_nil_l (j : dict) : contributions (Counter []) j = [].
Proof.
  induction j as [|[k v] j IH]; [reflexivity | exact IH].
Qed.

Section ScoreProperties.

Variable lower_ucs4 : str -> nat -> char -> list char.
Variable uni_isspace : char -> bool.
Variable STOPWORDS : list str.

Local Abbreviation tokens := (tokens_of lower_ucs4 uni_isspace STOPWORDS).
Local Abbreviation tokenize := (tokenize_and_weight lower_ucs4 uni_isspace STOPWORDS).
Local Abbreviation score := (score_resume_against_job lower_ucs4 uni_isspace STOPWORDS).

Lemma job_profile_cases (job_desc : str) :
  tokenize job_desc None = [] \/ tokenize job_desc None <> [].
Proof.
  destruct (tokenize job_desc None); [now left | right; discriminate].
Qed.

(** X14. The order of the words of the resume does not matter: two
    resume texts with the same tokens in any order get the same score and
    the same matched mapping against every job text. *)
Theorem score_resume_word_order (resume1 resume2 job_desc : str) :
  Permutation (tokens resume1) (tokens resume2) ->
  score resume1 job_desc = score resume2 job_desc.
Proof.
  intros P.
  destruct (job_profile_cases job_desc) as [E|Hne].
  - now rewrite !score_empty_job.
  - destruct (score_nonempty_job _ _ _ resume1 job_desc Hne) as [_ ->].
    destruct (score_nonempty_job _ _ _ resume2 job_desc Hne) as [_ ->].
    rewrite (contributions_ext (tokenize resume1 None) (tokenize resume2 None));
      [reflexivity|].
    intros k _. change (get (Counter (tokens resume1)) k 0
                        = get (Counter (tokens resume2)) k 0).
    rewrite !Counter_get. now apply occurrences_perm.
Qed.

(** X15. The order of the words of the job text does not change the
    score: two job texts with the same tokens in any order give the same
    score, and matched mappings with the same entries. *)
Theorem score_job_word_order (resume_text job1 job2 : str) :
  Permutation (tokens job1) (tokens job2) ->
  exists (s : Q) (m1 m2 : dict),
    score resume_text job1 = Ok (s, m1) /\
    score resume_text job2 = Ok (s, m2) /\
    Permutation m1 m2.
Proof.
  intros P.
  assert (PJ : Permutation (tokenize job1 None) (tokenize job2 None))
    by now apply Counter_perm.
  destruct (job_profile_cases job1) as [E|Hne].
  - assert (E2 : tokenize job2 None = [])
      by (rewrite E in PJ; now apply Permutation_nil in PJ).
    exists 0%Q, [], []. rewrite !score_empty_job by assumption. auto.
  - assert (Hne2 : tokenize job2 None <> []).
    { intros E2. rewrite E2 in PJ. apply Permutation_sym, Permutation_nil in PJ.
      contradiction. }
    destruct (score_nonempty_job _ _ _ resume_text job1 Hne) as [_ ->].
    destruct (score_nonempty_job _ _ _ resume_text job2 Hne2) as [_ ->].
    set (r := tokenize resume_text None).
    assert (PC : Permutation (contributions r (tokenize job1 None))
                             (contributions r (tokenize job2 None)))
      by (unfold contributions; now apply Permutation_flat_map).
    eexists; eexists; eexists. split; [reflexivity|]. split; [|exact PC].
    do 2 f_equal. unfold values.
    rewrite (sum_perm _ _ (Permutation_map snd PC)).
    now rewrite (sum_perm _ _ (Permutation_map snd PJ)).
Qed.

(** X16. The score does not go down when the resume gains occurrences:
    if every token counts at least as often in a second resume, that
    resume scores at least as high against the same job text. *)
Theorem score_monotone_in_resume (resume1 resume2 job_desc : str) :
  (forall tok, get (tokenize resume1 None) tok 0
               <= get (tokenize resume2 None) tok 0) ->
  exists (s1 s2 : Q) (m1 m2 : dict),
    score resume1 job_desc = Ok (s1, m1) /\
    score resume2 job_desc = Ok (s2, m2) /\
    (s1 <= s2)%Q.
Proof.
  intros H.
  destruct (job_profile_cases job_desc) as [E|Hne].
  - exists 0%Q, 0%Q, [], []. rewrite !score_empty_job by assumption.
    repeat split. apply Qle_refl.
  - destruct (score_nonempty_job _ _ _ resume1 job_desc Hne) as [Hs ->].
    destruct (score_nonempty_job _ _ _ resume2 job_desc Hne) as [_ ->].
    do 4 eexists. split; [reflexivity|]. split; [reflexivity|].
    rewrite !Qred_correct. unfold Qle; simpl.
    apply Z.mul_le_mono_nonneg_r; [lia|].
    apply sum_contributions_mono; [assumption|].
    apply profile_values.
Qed.

(** X17. A text that has tokens scores exactly 1 against itself, and
    everything in its profile is matched. *)
Theorem score_against_itself (text : str) :
  tokens text <> [] ->
  score text text = Ok (1%Q, tokenize text None).
Proof.
  intros Ht.
  assert (Hne : tokenize text None <> [])
    by (intros E; apply Counter_nil_iff in E; contradiction).
  destruct (score_nonempty_job _ _ _ text text Hne) as [Hs ->].
  rewrite contributions_full.
  - do 2 f_equal.
    destruct (sum (values (tokenize text None))) as [|p|p]; try lia.
    apply Qred_frac_one.
  - intros k v Hin.
    split; [exact (profile_values lower_ucs4 uni_isspace STOPWORDS text k v Hin)|].
    unfold get. rewrite (In_dict_get _ k v); [lia| |assumption].
    apply profile_NoDup.
Qed.

(** X18. A resume text without tokens, the empty text among them, scores
    0 with nothing matched against every job text. *)
Theorem score_resume_without_tokens (resume_text job_desc : str) :
  tokens resume_text = [] ->
  score resume_text job_desc = Ok (0%Q, []).
Proof.
  intros E.
  destruct (job_profile_cases job_desc) as [Ej|Hne].
  - now apply score_empty_job.
  - destruct (score_nonempty_job _ _ _ resume_text job_desc Hne) as [Hs ->].
    change (tokenize resume_text None) with (Counter (tokens resume_text)).
    rewrite E.
    rewrite contributions_nil_l. change (sum (values [])) with 0.
    now rewrite Qred_zero.
Qed.

End ScoreProperties.

(** ** The overlap is symmetric *)

Lemma get_cons (k k' : str) (v : Z) (d : dict) :
  get ((k, v) :: d) k' 0 = if str_eqb k k' then v else get d k' 0.
Proof. unfold get; simpl. now destruct (str_eqb k k'). Qed.

Lemma get_absent (d : dict) (k : str) : ~ In k (keys d) -> get d k 0 = 0.
Proof.
  intros H. apply dict_get_None in H. unfold get. now rewrite H.
Qed.

Lemma sum_contributions_cons (r : dict) (k : str) (v : Z) (j : dict) :
  sum (values (contributions r ((k, v) :: j))) =
  (if 0 <? get r k 0 then Z.min (get r k 0) v else 0)
  + sum (values (contributions r j)).
Proof.
  change (contributions r ((k, v) :: j))
    with ((if 0 <? get r k 0 then [(k, Z.min (get r k 0) v)] else [])
          ++ contributions r j).
  unfold values. rewrite map_app, sum_app.
  destruct (0 <? get r k 0); reflexivity.
Qed.

Lemma sum_contributions_add (k : str) (v : Z) (j r : dict) :
  ~ In k (keys j) -> 1 <= v -> NoDup (keys r) ->
  (forall k0 v0, In (k0, v0) r -> 1 <= v0) ->
  sum (values (contributions ((k, v) :: j) r)) =
  (if 0 <? get r k 0 then Z.min (get r k 0) v else 0)
  + sum (values (contributions j r)).
Proof.
  intros Hk Hv. induction r as [|[k0 v0] r IH]; intros ND Hr.
  - reflexivity.
  - inversion ND as [|? ? Hk0 ND']; subst.
    assert (1 <= v0) by (apply (Hr k0); now left).
    assert (Hr' : forall k1 v1, In (k1, v1) r -> 1 <= v1)
      by (intros k1 v1 ?; apply (Hr k1); now right).
    rewrite !sum_contributions_cons, !get_cons.
    destruct (str_eqb k k0) eqn:E.
    + apply str_eqb_eq in E. subst k0. rewrite str_eqb_refl.
      rewrite (get_absent j k Hk).
      replace (0 <? v) with true by (symmetry; apply Z.ltb_lt; lia).
      replace (0 <? v0) with true by (symmetry; apply Z.ltb_lt; lia).
      change (0 <? 0) with false. cbv iota.
      rewrite (contributions_ext ((k, v) :: j) j r).
      2:{ intros k' Hk'. rewrite get_cons.
          destruct (str_eqb k k') eqn:E'; [|reflexivity].
          apply str_eqb_eq in E'. subst k'. contradiction. }
      lia.
    + assert (E' : str_eqb k0 k = false).
      { apply str_eqb_neq. apply str_eqb_neq in E. congruence. }
      rewrite E'. rewrite (IH ND' Hr'). lia.
Qed.

Lemma sum_contributions_sym (r j : dict) :
  NoDup (keys r) -> NoDup (keys j) ->
  (forall k v, In (k, v) r -> 1 <= v) ->
  (forall k v, In (k, v) j -> 1 <= v) ->
  sum (values (contributions r j)) = sum (values (contributions j r)).
Proof.
  intros NDr. induction j as [|[k v] j IH]; intros NDj Hr Hv.
  - pose proof (contributions_nil_l r) as C.
    change (Counter []) with (@nil (str * Z)) in C. now rewrite C.
  - inversion NDj as [|? ? Hk NDj']; subst.
    assert (1 <= v) by (apply (Hv k); now left).
    rewrite sum_contributions_add by assumption.
    rewrite <- IH by (try assumption; intros k' v' ?; apply (Hv k'); now right).
    apply sum_contributions_cons.
Qed.

Section Overlap.

Variable lower_ucs4 : str -> nat -> char -> list char.
Variable uni_isspace : char -> bool.
Variable STOPWORDS : list str.

Local Abbreviation tokens := (tokens_of lower_ucs4 uni_isspace STOPWORDS).
Local Abbreviation tokenize := (tokenize_and_weight lower_ucs4 uni_isspace STOPWORDS).
Local Abbreviation score := (score_resume_against_job lower_ucs4 uni_isspace STOPWORDS).

(** X19. The overlap accumulated by the loop is the same whichever of
    the two texts plays the job: only the division by the job total makes
    the score directional. *)
Theorem overlap_symmetric (text1 text2 : str) :
  fst (score_loop (tokenize text1 None) (tokenize text2 None)) =
  fst (score_loop (tokenize text2 None) (tokenize text1 None)).
Proof.
  rewrite !score_loop_closed by apply profile_NoDup. simpl.
  apply sum_contributions_sym; try apply profile_NoDup; apply profile_values.
Qed.

(** X20. The overlap accumulated by the loop, an integer, is at least 0
    and at most the number of tokens of the resume, and at most the number
    of tokens of the job text. *)
Theorem overlap_bounded_by_token_counts (resume_text job_desc : str) :
  0 <= fst (score_loop (tokenize resume_text None) (tokenize job_desc None))
    <= Z.of_nat (List.length (tokens resume_text)) /\
  fst (score_loop (tokenize resume_text None) (tokenize job_desc None))
  <= Z.of_nat (List.length (tokens job_desc)).
Proof.
  rewrite score_loop_closed by apply profile_NoDup. cbn [fst].
  rewrite <- (profile_total lower_ucs4 uni_isspace STOPWORDS job_desc).
  rewrite <- (profile_total lower_ucs4 uni_isspace STOPWORDS resume_text).
  pose proof (sum_contributions_bounds (tokenize resume_text None)
                (tokenize job_desc None)
                (profile_values _ _ _ job_desc)) as Bj.
  pose proof (sum_contributions_bounds (tokenize job_desc None)
                (tokenize resume_text None)
                (profile_values _ _ _ resume_text)) as Br.
  rewrite (sum_contributions_sym (tokenize resume_text None)
             (tokenize job_desc None)) in *
    by (try apply profile_NoDup; apply profile_values).
  lia.
Qed.

End Overlap.

(** ** Texts joined by a space *)

Section Joined.

Variable lower_ucs4 : str -> nat -> char -> list char.
Variable uni_isspace : char -> bool.
Variable STOPWORDS : list str.

Local Abbreviation tokens := (tokens_of lower_ucs4 uni_isspace STOPWORDS).
Local Abbreviation tokenize := (tokenize_and_weight lower_ucs4 uni_isspace STOPWORDS).

Lemma flush_app (cur : str) (out : list str) :
  flush cur out = flush cur [] ++ out.
Proof. destruct cur; reflexivity. Qed.

Lemma split_from_space (a b : str) :
  forall cur,
    split_from uni_isspace cur (a ++ SPACE :: b) =
    split_from uni_isspace cur a ++ split_from uni_isspace [] b.
Proof.
  induction a as [|c a IH]; intros cur.
  - change (split_from uni_isspace cur ([] ++ SPACE :: b))
      with (flush cur (split_from uni_isspace [] b)).
    apply flush_app.
  - cbn [app split_from]. destruct (isspace uni_isspace c).
    + rewrite IH, (flush_app cur (_ ++ _)), (flush_app cur (split_from _ _ a)).
      now rewrite app_assoc.
    + apply IH.
Qed.

Lemma tokens_joined (a b : str) :
  forallb is_ascii a = true -> forallb is_ascii b = true ->
  tokens (a ++ lit " " ++ b) = tokens a ++ tokens b.
Proof.
  intros Ha Hb. change (a ++ lit " " ++ b) with (a ++ SPACE :: b).
  unfold tokens_of.
  rewrite !lower_ascii; try assumption.
  2:{ rewrite forallb_app. cbn [forallb]. now rewrite Ha, Hb. }
  rewrite map_app. cbn [List.map].
  change (ascii_tolower SPACE) with SPACE.
  unfold re_sub. rewrite map_app. cbn [List.map].
  change (if keep uni_isspace SPACE then SPACE else SPACE) with SPACE.
  unfold split. rewrite split_from_space. apply filter_app.
Qed.

(** X21. For ASCII texts, joining two texts with a space, as the
    matching route joins a job's description and title, gives the tokens
    of the first followed by the tokens of the second, so every count in
    the joint profile is the sum of the two counts. *)
Theorem profile_of_joined_texts (a b : str) :
  forallb is_ascii a = true -> forallb is_ascii b = true ->
  tokens (a ++ lit " " ++ b) = tokens a ++ tokens b /\
  forall t,
    get (tokenize (a ++ lit " " ++ b) None) t 0 =
    get (tokenize a None) t 0 + get (tokenize b None) t 0.
Proof.
  intros Ha Hb. split; [now apply tokens_joined|].
  intros t.
  change (get (Counter (tokens (a ++ lit " " ++ b))) t 0 =
          get (Counter (tokens a)) t 0 + get (Counter (tokens b)) t 0).
  rewrite !Counter_get, tokens_joined by assumption.
  apply occurrences_app.
Qed.

End Joined.

(** ** The matching route *)

Lemma Qltb_true (a b : Q) : Qltb a b = true <-> (a < b)%Q.
Proof.
  unfold Qltb. rewrite negb_true_iff. split.
  - intros H. apply Qnot_le_lt. intros L. apply Qle_bool_iff in L. congruence.
  - intros H. apply not_true_is_false. intros L. apply Qle_bool_iff in L.
    now apply Qlt_not_le in H.
Qed.

Lemma Qltb_false (a b : Q) : Qltb a b = false <-> (b <= a)%Q.
Proof.
  unfold Qltb. rewrite negb_false_iff. apply Qle_bool_iff.
Qed.

Lemma insert_by_score_perm (e : Scored) (l : list Scored) :
  Permutation (insert_by_score e l) (e :: l).
Proof.
  induction l as [|x l IH]; simpl; [reflexivity|].
  destruct (Qltb (scored_score e) (scored_score x)); [|reflexivity].
  rewrite IH. apply perm_swap.
Qed.

Lemma sorted_by_score_perm (l : list Scored) :
  Permutation (sorted_by_score l) l.
Proof.
  induction l as [|x l IH]; simpl; [reflexivity|].
  rewrite insert_by_score_perm. now constructor.
Qed.

Lemma insert_by_score_sorted (e : Scored) (l : list Scored) :
  StronglySorted score_ge l -> StronglySorted score_ge (insert_by_score e l).
Proof.
  induction 1 as [|x l Hs IH Hx]; simpl.
  - constructor; constructor.
  - destruct (Qltb (scored_score e) (scored_score x)) eqn:C.
    + apply Qltb_true in C. constructor; [assumption|].
      apply (Permutation_Forall (Permutation_sym (insert_by_score_perm e l))).
      constructor; [now apply Qlt_le_weak | assumption].
    + apply Qltb_false in C. constructor; [now constructor|].
      constructor; [exact C|].
      apply (Forall_impl _ (P := score_ge x)); [|assumption].
      unfold score_ge. intros y Hy. now apply (Qle_trans _ (scored_score x)).
Qed.

Lemma sorted_by_score_sorted (l : list Scored) :
  StronglySorted score_ge (sorted_by_score l).
Proof.
  induction l as [|x l IH]; simpl;
    [constructor | now apply insert_by_score_sorted].
Qed.

Lemma with_score_insert (q : Q) (e : Scored) (l : list Scored) :
  with_score q (insert_by_score e l) = with_score q (e :: l).
Proof.
  unfold with_score.
  induction l as [|x l IH]; simpl; [reflexivity|].
  destruct (Qltb (scored_score e) (scored_score x)) eqn:C; [|reflexivity].
  apply Qltb_true in C. simpl in *. rewrite IH.
  destruct (Qeq_bool (scored_score e) q) eqn:Ee,
           (Qeq_bool (scored_score x) q) eqn:Ex; try reflexivity.
  apply Qeq_bool_iff in Ee, Ex. rewrite Ee, Ex in C.
  now apply Qlt_irrefl in C.
Qed.

Lemma with_score_sorted (q : Q) (l : list Scored) :
  with_score q (sorted_by_score l) = with_score q l.
Proof.
  induction l as [|x l IH]; simpl; [reflexivity|].
  rewrite with_score_insert. unfold with_score in *; simpl. now rewrite IH.
Qed.

Section MatchingProperties.

Variable lower_ucs4 : str -> nat -> char -> list char.
Variable uni_isspace : char -> bool.
Variable STOPWORDS : list str.

Local Abbreviation score := (score_resume_against_job lower_ucs4 uni_isspace STOPWORDS).
Local Abbreviation score_all := (score_jobs lower_ucs4 uni_isspace STOPWORDS).
Local Abbreviation route := (match_resume lower_ucs4 uni_isspace STOPWORDS).

Lemma score_returns (resume_text job_desc : str) :
  exists (s : Q) (matched : dict), score resume_text job_desc = Ok (s, matched).
Proof.
  destruct (job_profile_cases lower_ucs4 uni_isspace STOPWORDS job_desc)
    as [E|Hne].
  - exists 0%Q, []. now apply score_empty_job.
  - destruct (score_nonempty_job _ _ _ resume_text job_desc Hne) as [_ ->].
    eauto.
Qed.

Lemma score_jobs_spec (text : str) (jobs : list Job) :
  exists scored : list Scored,
    score_all text jobs = Ok scored /\
    List.map scored_job scored = jobs /\
    Forall (fun row =>
              score text (job_text (scored_job row)) =
              Ok (scored_score row, scored_matched row)) scored.
Proof.
  induction jobs as [|job jobs (scored & Hs & Hj & Hr)].
  - exists []. repeat split. constructor.
  - destruct (score_returns text (job_text job)) as (s & m & E).
    exists (mkScored job s m :: scored). cbn [score_jobs].
    rewrite E, Hs. split; [reflexivity|]. split; [simpl; now rewrite Hj|].
    constructor; assumption.
Qed.

(** X23. For an existing resume the route returns the first
    [min 10 (number of jobs)] rows of a ranking of all jobs: every job
    appears once with its own score against the resume text, scores do not
    increase along the ranking, and jobs with equal scores keep the order
    of the job list. *)
Theorem match_resume_ranking
        (resumes : list Resume) (jobs : list Job) (id : Z) (resume : Resume) :
  List.find (fun r => resume_id r =? id) resumes = Some resume ->
  exists top rest scored : list Scored,
    route resumes jobs id = Rendered top /\
    List.length top = Nat.min 10 (List.length jobs) /\
    List.map scored_job scored = jobs /\
    Forall (fun row =>
              score (resume_text resume) (job_text (scored_job row)) =
              Ok (scored_score row, scored_matched row)) scored /\
    Permutation (top ++ rest) scored /\
    StronglySorted score_ge (top ++ rest) /\
    (forall q, with_score q (top ++ rest) = with_score q scored).
Proof.
  intros F. unfold match_resume. rewrite F.
  destruct (score_jobs_spec (resume_text resume) jobs) as (scored & -> & Hj & Hr).
  exists (firstn 10 (sorted_by_score scored)),
         (skipn 10 (sorted_by_score scored)), scored.
  rewrite firstn_skipn.
  split; [reflexivity|]. split.
  { rewrite length_firstn, (Permutation_length (sorted_by_score_perm scored)).
    now rewrite <- Hj, length_map. }
  split; [assumption|]. split; [assumption|].
  split; [apply sorted_by_score_perm|].
  split; [apply sorted_by_score_sorted | intros q; apply with_score_sorted].
Qed.

End MatchingProperties.

(** ** Letter case *)

Section LetterCase.

Variable lower_ucs4 : str -> nat -> char -> list char.
Variable uni_isspace : char -> bool.
Variable STOPWORDS : list str.

Local Abbreviation tokens := (tokens_of lower_ucs4 uni_isspace STOPWORDS).
Local Abbreviation score := (score_resume_against_job lower_ucs4 uni_isspace STOPWORDS).

Lemma ascii_tolower_ascii (s : str) :
  forallb is_ascii s = true ->
  forallb is_ascii (List.map ascii_tolower s) = true.
Proof.
  induction s as [|c s IH]; [reflexivity|]. cbn [forallb List.map].
  rewrite !andb_true_iff. intros [Hc Hs]. split; [|now apply IH].
  unfold is_ascii, ascii_tolower, in_range in *.
  destruct ((65 <=? c)%N && (c <=? 90)%N)%bool eqn:E; [|assumption].
  bools. apply N.ltb_lt. lia.
Qed.

Lemma ascii_tolower_idem (s : str) :
  List.map ascii_tolower (List.map ascii_tolower s) = List.map ascii_tolower s.
Proof.
  rewrite map_map. apply map_ext. intros c.
  unfold ascii_tolower at 1.
  destruct (in_range 65 90 (ascii_tolower c)) eqn:E; [|reflexivity].
  unfold ascii_tolower in *.
  destruct (in_range 65 90 c) eqn:E'; [|congruence].
  bools. lia.
Qed.

Lemma tokens_lowercased (text : str) :
  forallb is_ascii text = true ->
  tokens (List.map ascii_tolower text) = tokens text.
Proof.
  intros H. unfold tokens_of.
  rewrite !lower_ascii by (try apply ascii_tolower_ascii; assumption).
  now rewrite ascii_tolower_idem.
Qed.

(** X24. For texts made of ASCII characters only, matching ignores
    letter case: lowercasing the letters of both texts changes neither the
    score nor the matched mapping. *)
Theorem score_ignores_ascii_case (resume_text job_desc : str) :
  forallb is_ascii resume_text = true ->
  forallb is_ascii job_desc = true ->
  score (List.map ascii_tolower resume_text) (List.map ascii_tolower job_desc)
  = score resume_text job_desc.
Proof.
  intros Hr Hj. unfold score_resume_against_job, tokenize_and_weight.
  cbn [truthy]. now rewrite !tokens_lowercased.
Qed.

End LetterCase.

(** ** Instances of the further properties *)

Lemma allowed_file_dispatch_example :
  exists e,
    after_last_dot (lit "my.cv.PDF") = Some e /\
    ((lower plain_lower_ucs4 e = lit "pdf" /\
      extract_text plain_lower_ucs4 broken_docx_fs empty_pdf failing_docx
        (lit "upload") (lit "my.cv.PDF")
      = extract_text_from_pdf empty_pdf (lit "upload"))
     \/ (lower plain_lower_ucs4 e = lit "docx" /\
         extract_text plain_lower_ucs4 broken_docx_fs empty_pdf failing_docx
           (lit "upload") (lit "my.cv.PDF")
         = extract_text_from_docx failing_docx (lit "upload"))
     \/ ((lower plain_lower_ucs4 e = lit "doc"
          \/ lower plain_lower_ucs4 e = lit "txt") /\
         extract_text plain_lower_ucs4 broken_docx_fs empty_pdf failing_docx
           (lit "upload") (lit "my.cv.PDF")
         = extract_text_from_txt broken_docx_fs (lit "upload"))).
Proof.
  apply (allowed_file_dispatch plain_lower_ucs4 broken_docx_fs empty_pdf
           failing_docx (lit "upload") (lit "my.cv.PDF")).
  reflexivity.
Defined.

Lemma extract_text_without_dot_example :
  extract_text plain_lower_ucs4 broken_docx_fs empty_pdf failing_docx
    (lit "upload") (lit "resume") = Raise IndexError.
Proof.
  apply (extract_text_without_dot plain_lower_ucs4 broken_docx_fs empty_pdf
           failing_docx (lit "upload") (lit "resume")).
  reflexivity.
Defined.

Lemma extract_text_extension_only_example :
  extract_text plain_lower_ucs4 broken_docx_fs empty_pdf failing_docx
    (lit "upload") (lit "cv" ++ DOT :: lit "TxT")
  = extract_text plain_lower_ucs4 broken_docx_fs empty_pdf failing_docx
      (lit "upload") (lit "my.resume" ++ DOT :: lit "txt").
Proof.
  apply (extract_text_extension_only plain_lower_ucs4 broken_docx_fs empty_pdf
           failing_docx (lit "upload") (lit "cv") (lit "my.resume")
           (lit "TxT") (lit "txt")); reflexivity.
Defined.

Lemma extract_text_docx_example :
  extract_text plain_lower_ucs4 broken_docx_fs empty_pdf failing_docx
    (lit "upload") (lit "cv.Docx")
  = match failing_docx (lit "upload") with
    | Ok paragraphs => Ok (join [10%N] paragraphs)
    | Raise err => Raise err
    end.
Proof.
  apply (extract_text_docx plain_lower_ucs4 broken_docx_fs empty_pdf
           failing_docx (lit "upload") (lit "cv.Docx") (lit "Docx"));
    reflexivity.
Defined.

Lemma utf8_ignore_ascii_example :
  utf8_ignore [104; 105; 10]%N = [104; 105; 10]%N.
Proof.
  apply (utf8_ignore_ascii [104; 105; 10]%N). reflexivity.
Defined.

Lemma utf8_round_trip_example :
  utf8_ignore (flat_map utf8_encode [104; 233; 8364; 128512]%N)
  = [104; 233; 8364; 128512]%N.
Proof.
  apply (utf8_round_trip [104; 233; 8364; 128512]%N).
  repeat constructor.
Defined.

Lemma extract_text_txt_clean_example :
  exists text,
    extract_text plain_lower_ucs4 broken_docx_fs empty_pdf failing_docx
      (lit "upload") (lit "cv.doc") = Ok text /\
    ~ In CR text /\
    Forall (fun c => scalar c = true) text.
Proof.
  apply (extract_text_txt_clean plain_lower_ucs4 broken_docx_fs empty_pdf
           failing_docx (lit "upload") (lit "cv.doc") (lit "doc")
           [x68; x69; xff]).
  - reflexivity.
  - left. reflexivity.
  - reflexivity.
Defined.

Lemma extract_text_txt_ascii_example :
  extract_text plain_lower_ucs4 ascii_fs empty_pdf failing_docx
    (lit "upload") (lit "cv.txt") = Ok (List.map Byte.to_N [x68; x69]).
Proof.
  apply (extract_text_txt_ascii plain_lower_ucs4 ascii_fs empty_pdf
           failing_docx (lit "upload") (lit "cv.txt") (lit "txt")
           [x68; x69]).
  - reflexivity.
  - right. reflexivity.
  - reflexivity.
  - reflexivity.
  - vm_compute. intros [H|[H|[]]]; discriminate.
Defined.

Lemma score_resume_word_order_example :
  score_resume_against_job plain_lower_ucs4 plain_isspace []
    (lit "Python, SQL") example_job
  = score_resume_against_job plain_lower_ucs4 plain_isspace []
      (lit "sql python") example_job.
Proof.
  apply (score_resume_word_order plain_lower_ucs4 plain_isspace []
           (lit "Python, SQL") (lit "sql python") example_job).
  vm_compute. apply perm_swap.
Defined.

Lemma score_job_word_order_example :
  exists (s : Q) (m1 m2 : dict),
    score_resume_against_job plain_lower_ucs4 plain_isspace []
      example_resume (lit "Python, SQL") = Ok (s, m1) /\
    score_resume_against_job plain_lower_ucs4 plain_isspace []
      example_resume (lit "sql python") = Ok (s, m2) /\
    Permutation m1 m2.
Proof.
  apply (score_job_word_order plain_lower_ucs4 plain_isspace []
           example_resume (lit "Python, SQL") (lit "sql python")).
  vm_compute. apply perm_swap.
Defined.

Lemma score_monotone_in_resume_example :
  exists (s1 s2 : Q) (m1 m2 : dict),
    score_resume_against_job plain_lower_ucs4 plain_isspace []
      (lit "python") example_job = Ok (s1, m1) /\
    score_resume_against_job plain_lower_ucs4 plain_isspace []
      (lit "python python sql") example_job = Ok (s2, m2) /\
    (s1 <= s2)%Q.
Proof.
  apply (score_monotone_in_resume plain_lower_ucs4 plain_isspace []
           (lit "python") (lit "python python sql") example_job).
  intros tok.
  change (get [(lit "python", 1)] tok 0
          <= get [(lit "python", 2); (lit "sql", 1)] tok 0).
  rewrite !get_cons.
  destruct (str_eqb (lit "python") tok); [lia|].
  destruct (str_eqb (lit "sql") tok); unfold get; simpl; lia.
Defined.

Lemma score_against_itself_example :
  score_resume_against_job plain_lower_ucs4 plain_isspace []
    example_job example_job
  = Ok (1%Q, tokenize_and_weight plain_lower_ucs4 plain_isspace []
               example_job None).
Proof.
  apply (score_against_itself plain_lower_ucs4 plain_isspace [] example_job).
  vm_compute. discriminate.
Defined.

Lemma score_resume_without_tokens_example :
  score_resume_against_job plain_lower_ucs4 plain_isspace []
    (lit " ? ") example_job = Ok (0%Q, []).
Proof.
  apply (score_resume_without_tokens plain_lower_ucs4 plain_isspace []
           (lit " ? ") example_job).
  reflexivity.
Defined.

Lemma profile_of_joined_texts_example :
  tokens_of plain_lower_ucs4 plain_isspace []
    (lit "Python and SQL" ++ lit " " ++ lit "Python developer")
  = tokens_of plain_lower_ucs4 plain_isspace [] (lit "Python and SQL")
    ++ tokens_of plain_lower_ucs4 plain_isspace [] (lit "Python developer")
  /\ forall t,
      get (tokenize_and_weight plain_lower_ucs4 plain_isspace []
             (lit "Python and SQL" ++ lit " " ++ lit "Python developer")
             None) t 0
      = get (tokenize_and_weight plain_lower_ucs4 plain_isspace []
               (lit "Python and SQL") None) t 0
        + get (tokenize_and_weight plain_lower_ucs4 plain_isspace []
                 (lit "Python developer") None) t 0.
Proof.
  apply (profile_of_joined_texts plain_lower_ucs4 plain_isspace []
           (lit "Python and SQL") (lit "Python developer")); reflexivity.
Defined.

Lemma match_resume_ranking_example :
  exists top rest scored : list Scored,
    match_resume plain_lower_ucs4 plain_isspace [] example_resumes
      example_jobs 1 = Rendered top /\
    List.length top = Nat.min 10 (List.length example_jobs) /\
    List.map scored_job scored = example_jobs /\
    Forall (fun row =>
              score_resume_against_job plain_lower_ucs4 plain_isspace []
                (resume_text (mkResume 1 (lit "0a_cv.txt") (lit "cv.txt")
                                example_resume None))
                (job_text (scored_job row))
              = Ok (scored_score row, scored_matched row)) scored /\
    Permutation (top ++ rest) scored /\
    StronglySorted score_ge (top ++ rest) /\
    (forall q, with_score q (top ++ rest) = with_score q scored).
Proof.
  apply (match_resume_ranking plain_lower_ucs4 plain_isspace []
           example_resumes example_jobs 1
           (mkResume 1 (lit "0a_cv.txt") (lit "cv.txt") example_resume None)).
  reflexivity.
Defined.

Lemma score_ignores_ascii_case_example :
  score_resume_against_job plain_lower_ucs4 plain_isspace []
    (List.map ascii_tolower example_resume)
    (List.map ascii_tolower example_job)
  = score_resume_against_job plain_lower_ucs4 plain_isspace []
      example_resume example_job.
Proof.
  apply (score_ignores_ascii_case plain_lower_ucs4 plain_isspace []
           example_resume example_job); reflexivity.
Defined.
